(** * image_resize_bot: the size-fitting engine and the conversation tracker

    A shallow embedding of [for_both.py] and [image_resize.py]
    (telegram_bot/Image_resize_bot).  Both files define an [ImageProcessor]
    with the same [convert_to_bytes] and [get_size_in_appropriate_unit], a
    [process_image] of their own, and the same message handlers around a
    process-wide [user_states] dictionary.

    Conventions of the model.
    - Python [str] is [string] (8-bit characters: the ASCII fragment).
    - Python [float] is an exact rational ([Q]).  The sizes the bot computes
      are a decimal numeral times a power of two, or a byte count divided by
      a power of two; the binary rounding of a literal such as [0.1] and of
      the accumulated scale factors is not part of the model.
    - The imaging library (PIL) is an interface, [Imaging]; every encoder
      call is recorded in a log.  Opening a file may raise; resizing,
      drawing and encoding return: the theorems describe the runs in which
      they do, and none of them says that the library raises nothing.
    - A raised exception is the result [Raise e]; a [while] loop runs on
      fuel and [OutOfFuel] is a result of its own, never confused with a
      value. *)

From stdpp Require Import gmap.
From Stdlib Require Import ZArith QArith Qround Qabs String Ascii List Lia Bool.
From Stdlib Require Import DecimalString DecimalPos Sorted.
Import ListNotations.

Local Open Scope string_scope.
Local Open Scope Z_scope.

#[local] Arguments String.append !s1 s2 /.

(** ** Results of Python code *)

Inductive exn : Type :=
| ValueError (msg : string)
| KeyError
| OtherError (what : string).

Inductive res (A : Type) : Type :=
| Val (a : A)
| Raise (e : exn)
| OutOfFuel.

Arguments Val {A} a.
Arguments Raise {A} e.
Arguments OutOfFuel {A}.

(** ** The Python built-ins the bot uses *)

Module Py.

Definition is_digit (c : ascii) : bool :=
  let n := nat_of_ascii c in (Nat.leb 48 n && Nat.leb n 57)%bool.

Definition digit_val (c : ascii) : Z := Z.of_nat (nat_of_ascii c) - 48.

Definition upper_char (c : ascii) : ascii :=
  let n := nat_of_ascii c in
  if (Nat.leb 97 n && Nat.leb n 122)%bool then ascii_of_nat (n - 32) else c.

Definition lower_char (c : ascii) : ascii :=
  let n := nat_of_ascii c in
  if (Nat.leb 65 n && Nat.leb n 90)%bool then ascii_of_nat (n + 32) else c.

(** [s.upper()], [s.lower()] *)
Fixpoint upper (s : string) : string :=
  match s with
  | EmptyString => EmptyString
  | String c s' => String (upper_char c) (upper s')
  end.

Fixpoint lower (s : string) : string :=
  match s with
  | EmptyString => EmptyString
  | String c s' => String (lower_char c) (lower s')
  end.

(** [sub in s] *)
Fixpoint contains (sub s : string) : bool :=
  (String.prefix sub s ||
   match s with
   | EmptyString => false
   | String _ s' => contains sub s'
   end)%bool.

(** [s.replace(old, new)] for a non-empty [old]: the occurrences of [old]
    are replaced left to right, without overlap.  [skip] counts the
    characters of a matched occurrence that are still to be dropped. *)
Fixpoint replace_from (old new : string) (skip : nat) (s : string) : string :=
  match s with
  | EmptyString => EmptyString
  | String c s' =>
      match skip with
      | S k => replace_from old new k s'
      | O =>
          if String.prefix old s
          then new ++ replace_from old new (String.length old - 1) s'
          else String c (replace_from old new 0 s')
      end
  end.

Definition replace (old new s : string) : string := replace_from old new 0 s.

(** The value of a run of decimal digits, most significant first. *)
Fixpoint digits_val (acc : Z) (s : string) : Z :=
  match s with
  | EmptyString => acc
  | String c s' => digits_val (10 * acc + digit_val c) s'
  end.

Fixpoint all_digits (s : string) : bool :=
  match s with
  | EmptyString => true
  | String c s' => (is_digit c && all_digits s')%bool
  end.

Fixpoint pow10 (n : nat) : positive :=
  match n with
  | O => 1%positive
  | S n' => (10 * pow10 n')%positive
  end.

(** Splits [s] at its first full stop. *)
Fixpoint split_dot (s : string) : string * option string :=
  match s with
  | EmptyString => (EmptyString, None)
  | String c s' =>
      if Ascii.eqb c "."%char then (EmptyString, Some s')
      else let (a, b) := split_dot s' in (String c a, b)
  end.

(** [float(s)] on plain decimal numerals: digits, optionally a full stop
    and more digits, at least one digit in all.  [None] is the
    [ValueError] of [float].  The signs, exponents, underscores, blanks,
    [inf] and [nan] that [float] also reads are outside the model: no
    string that passed the size pattern has them. *)
Definition float (s : string) : option Q :=
  match split_dot s with
  | (ip, None) =>
      if (all_digits ip && negb (String.eqb ip ""))%bool
      then Some (inject_Z (digits_val 0 ip)) else None
  | (ip, Some fp) =>
      if (all_digits ip && all_digits fp && negb (String.eqb (ip ++ fp) ""))%bool
      then Some (Qmake (digits_val 0 (ip ++ fp)) (pow10 (String.length fp)))
      else None
  end.

(** [int(x)] of a float: truncation towards zero. *)
Definition int (x : Q) : Z := Z.quot (Qnum x) (Zpos (Qden x)).

(** Rounding to the nearest integer, ties to even: the rounding of the
    [.2f] format on the exact value of the float. *)
Definition round_half_even (x : Q) : Z :=
  let n := Qnum x in
  let d := Zpos (Qden x) in
  let fl := n / d in
  let r2 := 2 * (n mod d) in
  if r2 <? d then fl
  else if d <? r2 then fl + 1
  else if Z.even fl then fl else fl + 1.

Definition Z_to_string (z : Z) : string := NilZero.string_of_int (Z.to_int z).

Definition two_digits (z : Z) : string :=
  if z <? 10 then "0" ++ Z_to_string z else Z_to_string z.

(** [f"{x:.2f}"] *)
Definition format_2f (x : Q) : string :=
  let h := round_half_even (Qabs x * 100) in
  (if Qlt_le_dec x 0 then "-" else "") ++
  Z_to_string (h / 100) ++ "." ++ two_digits (h mod 100).

(** [range(start, stop, -step)] for a positive [step], on fuel [n]. *)
Fixpoint range_down (n : nat) (start stop step : Z) : list Z :=
  match n with
  | O => []
  | S n' => if stop <? start then start :: range_down n' (start - step) stop step else []
  end.

(** Python's blanks among the 8-bit characters. *)
Definition is_space (c : ascii) : bool :=
  let n := nat_of_ascii c in
  ((Nat.leb 9 n && Nat.leb n 13) || (Nat.leb 28 n && Nat.leb n 32))%bool.

Fixpoint lstrip (s : string) : string :=
  match s with
  | EmptyString => EmptyString
  | String c s' => if is_space c then lstrip s' else s
  end.

Fixpoint rev_onto (acc s : string) : string :=
  match s with
  | EmptyString => acc
  | String c s' => rev_onto (String c acc) s'
  end.

Definition rev (s : string) : string := rev_onto EmptyString s.

(** [s.strip()] *)
Definition strip (s : string) : string := rev (lstrip (rev (lstrip s))).

(** [s.split()]: the runs of characters between blanks; [word] holds the
    run being read. *)
Fixpoint split_from (word s : string) : list string :=
  match s with
  | EmptyString => if String.eqb word "" then [] else [word]
  | String c s' =>
      if is_space c
      then (if String.eqb word "" then split_from "" s' else word :: split_from "" s')
      else split_from (word ++ String c "") s'
  end.

Definition split (s : string) : list string := split_from "" s.

(** [sep.join(xs)] *)
Fixpoint join (sep : string) (xs : list string) : string :=
  match xs with
  | [] => ""
  | [x] => x
  | x :: xs' => x ++ sep ++ join sep xs'
  end.

(** [s * n] on strings *)
Fixpoint repeat_str (s : string) (n : nat) : string :=
  match n with
  | O => EmptyString
  | S n' => s ++ repeat_str s n'
  end.

(** [range(start, stop)] *)
Definition range (start stop : Z) : list Z :=
  map (fun i => start + Z.of_nat i) (seq 0 (Z.to_nat (stop - start))).

End Py.

(** ** [ImageProcessor]: the helpers both files share *)

(** [convert_to_bytes]:
    size = float(size_str.replace('MB', '').replace('KB', '')), then the unit
    is looked for in [size_str.upper()]. *)
Definition convert_to_bytes (size_str : string) : res Q :=
  let stripped := Py.replace "KB" "" (Py.replace "MB" "" size_str) in
  match Py.float stripped with
  | None => Raise (ValueError ("could not convert string to float: '" ++ stripped ++ "'"))
  | Some size =>
      if Py.contains "MB" (Py.upper size_str) then Val (size * 1024 * 1024)%Q
      else if Py.contains "KB" (Py.upper size_str) then Val (size * 1024)%Q
      else Val size
  end.

(** [get_size_in_appropriate_unit] *)
Definition get_size_in_appropriate_unit (bytes_size : Q) : string :=
  let kb_size := (bytes_size / 1024)%Q in
  if Qle_bool 1024 kb_size
  then Py.format_2f (kb_size / 1024) ++ "MB"
  else Py.format_2f kb_size ++ "KB".

(** ** The imaging library

    What the bot asks of PIL.  [Image_open] is [Image.open(io.BytesIO(data))],
    [None] when it raises; [save] is [img.save(buf, format=f, ...)] followed
    by [buf.getvalue()].  An image is a value: [paste] returns the canvas it
    has drawn on. *)

Definition bytes : Type := list Byte.byte.

Inductive PilFormat : Type := JPEG | PNG | WEBP.

(** The keyword arguments of [save]: [quality], the [Comment] of
    [_add_metadata] and the [optimize] of [_increase_by_quality]. *)
Record SaveOpts : Type := mkOpts {
  quality : Z;
  Comment : option string;
  optimize : option bool
}.

Definition q_only (q : Z) : SaveOpts := mkOpts q None None.

Class Imaging : Type := {
  Img : Type;
  Image_open : bytes -> option Img;
  convert_RGB : Img -> Img;
  size : Img -> Z * Z;
  resize : Img -> Z * Z -> Img;
  expand : Img -> Z -> Img;
  Image_new_RGB : Z * Z -> Img;
  paste : Img -> Img -> Z * Z -> Img;
  save : Img -> PilFormat -> SaveOpts -> bytes
}.

Definition PilFormat_eqb (a b : PilFormat) : bool :=
  match a, b with
  | JPEG, JPEG | PNG, PNG | WEBP, WEBP => true
  | _, _ => false
  end.

(** [SUPPORTED_FORMATS], a dict in insertion order. *)
Definition SUPPORTED_FORMATS : list (string * PilFormat) :=
  [("JPG", JPEG); ("JPEG", JPEG); ("PNG", PNG); ("WEBP", WEBP)].

Fixpoint dict_get {V : Type} (d : list (string * V)) (k : string) : option V :=
  match d with
  | [] => None
  | (k', v) :: d' => if String.eqb k k' then Some v else dict_get d' k
  end.

(** [len(b)] as a number that compares with the float bounds. *)
Definition len (b : bytes) : Q := inject_Z (Z.of_nat (List.length b)).

(** [lo <= x <= hi] *)
Definition between (lo x hi : Q) : bool := (Qle_bool lo x && Qle_bool x hi)%bool.

(** [a < b] on floats *)
Definition Qlt_bool (a b : Q) : bool := negb (Qle_bool b a).

(** ** Effects: a log of calls, exceptions, fuel *)

Section Effects.
Context {E : Type}.

(** A computation: its result and the calls it made, in order. *)
Definition Eff (A : Type) : Type := res A * list E.

Definition ret {A : Type} (a : A) : Eff A := (Val a, []).

Definition raise {A : Type} (e : exn) : Eff A := (Raise e, []).

Definition bind {A B : Type} (m : Eff A) (k : A -> Eff B) : Eff B :=
  match m with
  | (Val a, t) => let (r, t') := k a in (r, (t ++ t')%list)
  | (Raise e, t) => (Raise e, t)
  | (OutOfFuel, t) => (OutOfFuel, t)
  end.

(** [try: m except Exception as e: h e] *)
Definition try_except {A : Type} (m : Eff A) (h : exn -> Eff A) : Eff A :=
  match m with
  | (Raise e, t) => let (r, t') := h e in (r, (t ++ t')%list)
  | other => other
  end.

End Effects.

Arguments Eff E A : clear implicits.

Declare Scope py_scope.
Delimit Scope py_scope with py.
Notation "x <- c ;; k" := (bind c (fun x => k))
  (at level 100, c at next level, right associativity) : py_scope.
Local Open Scope py_scope.

(** How one round of a [while] loop ends. *)
Inductive step (S R : Type) : Type :=
| Next (s : S)
| Break
| Return (r : R).

Arguments Next {S R} s.
Arguments Break {S R}.
Arguments Return {S R} r.

Section Loops.
Context {E : Type}.

(** [for x in xs: body], where [body] may return from the function:
    [Some r] is that return, [None] the end of the loop. *)
Fixpoint for_in {A R : Type} (xs : list A) (body : A -> Eff E (option R))
    : Eff E (option R) :=
  match xs with
  | [] => ret None
  | x :: xs' =>
      r <- body x ;;
      match r with
      | Some v => ret (Some v)
      | None => for_in xs' body
      end
  end.

(** [while cond(s): body], the loop variables in [s]. *)
Fixpoint while {S R : Type} (fuel : nat) (cond : S -> bool)
    (body : S -> Eff E (step S R)) (s : S) : Eff E (option R) :=
  if cond s then
    match fuel with
    | O => (OutOfFuel, [])
    | Datatypes.S fuel' =>
        st <- body s ;;
        match st with
        | Next s' => while fuel' cond body s'
        | Break => ret None
        | Return r => ret (Some r)
        end
    end
  else ret None.

End Loops.

(** The engine's computations log the calls of [save]: the image, the
    format, the keyword arguments. *)
Definition Call `{Imaging} : Type := Img * PilFormat * SaveOpts.

Definition M `{Imaging} (A : Type) : Type := Eff Call A.

Definition do_save `{Imaging} (img : Img) (f : PilFormat) (o : SaveOpts) : M bytes :=
  (Val (save img f o), [(img, f, o)]).

(** ** for_both.py *)

Module for_both.
Section Engine.
Context `{Imaging}.

(** The three [while] loops of [ImageSizeManager] step a counter towards
    a constant; this much fuel is more than they use (at most seven
    rounds, see [orbit_scale_factors] and the ladder lemmas below). *)
Definition loop_fuel : nat := 16.

(** [ImageSizeManager._verify_size] *)
Definition _verify_size (img : Img) (target_size_bytes : Q) (format_name : PilFormat) : M bool :=
  b <- do_save img format_name (q_only 100) ;;
  ret (Qle_bool target_size_bytes (len b)).

(** [ImageSizeManager._add_metadata]: [for _ in range(max_iterations)] *)
Fixpoint _add_metadata_rounds (rounds : nat) (img : Img) (target_size_bytes : Q)
    (format_name : PilFormat) (comment : string) : M (option Img) :=
  match rounds with
  | O => ret None
  | S rounds' =>
      b <- do_save img format_name (mkOpts 100 (Some comment) None) ;;
      if Qle_bool target_size_bytes (len b) then ret (Some img)
      else _add_metadata_rounds rounds' img target_size_bytes format_name (comment ++ comment)
  end.

Definition _add_metadata (img : Img) (target_size_bytes : Q) (format_name : PilFormat)
    : M (option Img) :=
  let max_iterations := 10%nat in
  _add_metadata_rounds max_iterations img target_size_bytes format_name
    (Py.repeat_str "x" 1024).

(** [ImageSizeManager._increase_by_scaling] *)
Definition _increase_by_scaling (img : Img) (target_size_bytes : Q) (format_name : PilFormat)
    : M (option Img) :=
  let '(width, height) := size img in
  let max_scale := 4%Q in
  while loop_fuel (fun scale_factor => Qle_bool scale_factor max_scale)
    (fun scale_factor =>
       let new_width := Py.int (inject_Z width * scale_factor) in
       let new_height := Py.int (inject_Z height * scale_factor) in
       let enlarged := resize img (new_width, new_height) in
       r <- for_in (Py.range 95 101) (fun quality =>
              b <- do_save enlarged format_name (q_only quality) ;;
              if Qle_bool target_size_bytes (len b) then ret (Some enlarged)
              else ret None) ;;
       match r with
       | Some e => ret (Return e)
       | None => ret (Next (scale_factor * 1.2)%Q)
       end)
    1.2%Q.

(** [ImageSizeManager._increase_by_padding] *)
Definition _increase_by_padding (img : Img) (target_size_bytes : Q) (format_name : PilFormat)
    : M (option Img) :=
  let max_padding := 1000 in
  while loop_fuel (fun padding => padding <=? max_padding)
    (fun padding =>
       let padded := expand img padding in
       b <- do_save padded format_name (q_only 100) ;;
       if Qle_bool target_size_bytes (len b) then ret (Return padded)
       else ret (Next (padding * 2)))
    100.

(** [ImageSizeManager._increase_by_quality] *)
Definition _increase_by_quality (img : Img) (target_size_bytes : Q) (format_name : PilFormat)
    : M (option Img) :=
  for_in (Py.range 95 101) (fun quality =>
    b <- do_save img format_name (mkOpts quality None (Some false)) ;;
    if Qle_bool target_size_bytes (len b) then ret (Some img) else ret None).

(** [ImageSizeManager._increase_by_duplicate] *)
Definition _increase_by_duplicate (img : Img) (target_size_bytes : Q) (format_name : PilFormat)
    : M (option Img) :=
  let '(width, height) := size img in
  let max_multiplier := 4 in
  while loop_fuel (fun multiplier => multiplier <=? max_multiplier)
    (fun multiplier =>
       let new_height := height * multiplier in
       let new_img :=
         fold_left (fun canvas i => paste canvas img (0, i * height))
           (Py.range 0 multiplier) (Image_new_RGB (width, new_height)) in
       b <- do_save new_img format_name (q_only 100) ;;
       if Qle_bool target_size_bytes (len b) then ret (Return new_img)
       else ret (Next (multiplier + 1)))
    2.

Definition techniques : list (string * (Img -> Q -> PilFormat -> M (option Img))) :=
  [ ("metadata", _add_metadata);
    ("scaling", _increase_by_scaling);
    ("padding", _increase_by_padding);
    ("quality", _increase_by_quality);
    ("duplicate", _increase_by_duplicate) ].

(** [ImageSizeManager.increase_image_size]:
    if result and _verify_size(result, ...): return result *)
Definition increase_image_size (img : Img) (target_size_bytes : Q) (format_name : PilFormat)
    : M (option Img) :=
  for_in techniques (fun '(technique_name, technique) =>
    result <- technique img target_size_bytes format_name ;;
    match result with
    | Some r =>
        ok <- _verify_size r target_size_bytes format_name ;;
        if ok then ret (Some r) else ret None
    | None => ret None
    end).

(** [ImageProcessor.process_image], the block under
    [if current_size < min_size_bytes]; [Some b] is its [return b]. *)
Definition grow_block (img : Img) (min_size_bytes max_size_bytes : Q)
    (pil_format : PilFormat) : M (option bytes) :=
  enlarged_img <- increase_image_size img min_size_bytes pil_format ;;
  match enlarged_img with
  | Some e =>
      b <- do_save e pil_format (q_only 95) ;;
      let new_size := len b in
      if between min_size_bytes new_size max_size_bytes then ret (Some b) else ret None
  | None => ret None
  end.

(** [ImageProcessor.process_image], the block under
    [if current_size > max_size_bytes or current_size < min_size_bytes].
    The width falls in every round, so its value is fuel enough. *)
Definition shrink_block (img : Img) (min_size_bytes max_size_bytes : Q)
    (pil_format : PilFormat) : M (option bytes) :=
  let scale_factor := 0.9%Q in
  while (Z.to_nat (fst (size img)))
    (fun '(width, height) => ((100 <? width) && (100 <? height))%bool)
    (fun '(width, height) =>
       let new_width := Py.int (inject_Z width * scale_factor) in
       let new_height := Py.int (inject_Z height * scale_factor) in
       let resized := resize img (new_width, new_height) in
       r <- for_in (Py.range_down 32 95 4 5) (fun quality =>
              b <- do_save resized pil_format (q_only quality) ;;
              let new_size := len b in
              if between min_size_bytes new_size max_size_bytes
              then ret (Some b) else ret None) ;;
       match r with
       | Some b => ret (Return b)
       | None => ret (Next (new_width, new_height))
       end)
    (size img).

(** [ImageProcessor.process_image].  [Val None] is the [return None] of
    its last line; the [except] clause logs and raises again. *)
Definition process_image (image_data : bytes) (target_size : Q * Q) (output_format : string)
    : M (option bytes) :=
  match dict_get SUPPORTED_FORMATS output_format with
  | None => raise (ValueError ("Unsupported format: " ++ output_format))
  | Some pil_format =>
      let '(min_size_bytes, max_size_bytes) := target_size in
      match Image_open image_data with
      | None => raise (OtherError "cannot identify image file")
      | Some img =>
          let img := if PilFormat_eqb pil_format JPEG then convert_RGB img else img in
          let current_size := len image_data in
          grown <-
            (if Qlt_bool current_size min_size_bytes
             then grow_block img min_size_bytes max_size_bytes pil_format
             else ret None) ;;
          match grown with
          | Some b => ret (Some b)
          | None =>
              shrunk <-
                (if (Qlt_bool max_size_bytes current_size
                     || Qlt_bool current_size min_size_bytes)%bool
                 then shrink_block img min_size_bytes max_size_bytes pil_format
                 else ret None) ;;
              match shrunk with
              | Some b => ret (Some b)
              | None => ret None
              end
          end
      end
  end.

End Engine.
End for_both.

(** ** image_resize.py *)

Module image_resize.
Section Engine.
Context `{Imaging}.

Definition MAX_SCALING_FACTOR : Q := 2.0.

(** Fuel for the growth loop, which has seven rounds at most
    ([orbit_growth_factors] below). *)
Definition loop_fuel : nat := 16.

(** [ImageProcessor.try_save_image]: the pair [(bytes, size)], or [None]
    for [(None, None)]. *)
Definition try_save_image (img : Img) (format_name : PilFormat) (target_size : Q)
    (width height : Z) : M (option (bytes * Q)) :=
  for_in (Py.range_down 32 95 4 5) (fun quality =>
    let img_resized := resize img (width, height) in
    b <- do_save img_resized format_name (q_only quality) ;;
    let current_size := len b in
    if Qle_bool current_size target_size then ret (Some (b, current_size))
    else ret None).

(** Truth value of a [bytes] object. *)
Definition truthy (b : bytes) : bool :=
  match b with [] => false | _ :: _ => true end.

(** [ImageProcessor.process_image], the loop under
    [if current_size < min_size_bytes]. *)
Definition grow_block (img : Img) (min_size_bytes max_size_bytes : Q)
    (pil_format : PilFormat) : M (option bytes) :=
  let '(original_width, original_height) := size img in
  while loop_fuel (fun scale_factor => Qle_bool scale_factor MAX_SCALING_FACTOR)
    (fun scale_factor =>
       let new_width := Py.int (inject_Z original_width * scale_factor) in
       let new_height := Py.int (inject_Z original_height * scale_factor) in
       let enlarged_img := resize img (new_width, new_height) in
       b <- do_save enlarged_img pil_format (q_only 95) ;;
       let new_size := len b in
       if between min_size_bytes new_size max_size_bytes then ret (Return b)
       else if Qlt_bool max_size_bytes new_size then ret Break
       else ret (Next (scale_factor * 1.1)%Q))
    1.1%Q.

(** [ImageProcessor.process_image], the loop under
    [if current_size > max_size_bytes or current_size < min_size_bytes]. *)
Definition shrink_block (img : Img) (min_size_bytes max_size_bytes : Q)
    (pil_format : PilFormat) : M (option bytes) :=
  let '(original_width, original_height) := size img in
  while (Z.to_nat original_width)
    (fun '(width, height) => ((100 <? width) && (100 <? height))%bool)
    (fun '(width, height) =>
       r <- try_save_image img pil_format max_size_bytes width height ;;
       let next := (Py.int (inject_Z width * 0.9), Py.int (inject_Z height * 0.9)) in
       match r with
       | Some (result, size) =>
           if (truthy result && between min_size_bytes size max_size_bytes)%bool
           then ret (Return result)
           else ret (Next next)
       | None => ret (Next next)
       end)
    (original_width, original_height).

(** [ImageProcessor.process_image] *)
Definition process_image (image_data : bytes) (target_size : Q * Q) (output_format : string)
    : M (option bytes) :=
  match dict_get SUPPORTED_FORMATS output_format with
  | None => raise (ValueError ("Unsupported format: " ++ output_format))
  | Some pil_format =>
      let '(min_size_bytes, max_size_bytes) := target_size in
      match Image_open image_data with
      | None => raise (OtherError "cannot identify image file")
      | Some img =>
          let img := if PilFormat_eqb pil_format JPEG then convert_RGB img else img in
          let current_size := len image_data in
          grown <-
            (if Qlt_bool current_size min_size_bytes
             then grow_block img min_size_bytes max_size_bytes pil_format
             else ret None) ;;
          match grown with
          | Some b => ret (Some b)
          | None =>
              shrunk <-
                (if (Qlt_bool max_size_bytes current_size
                     || Qlt_bool current_size min_size_bytes)%bool
                 then shrink_block img min_size_bytes max_size_bytes pil_format
                 else ret None) ;;
              match shrunk with
              | Some b => ret (Some b)
              | None =>
                  if between min_size_bytes current_size max_size_bytes then
                    b <- do_save img pil_format (q_only 95) ;;
                    ret (Some b)
                  else ret None
              end
          end
      end
  end.

End Engine.
End image_resize.

(** ** A small imaging library to run the engines on

    A picture is its dimensions.  An encoding is a byte that names the
    format, then one byte per ten thousand of [width * height * quality];
    keywords other than [quality] are ignored. *)

Module Toy.

Record picture : Type := mkPic { pw : Z; ph : Z }.

Definition zeros (n : Z) : bytes := List.repeat Byte.x00 (Z.to_nat n).

Definition tag (f : PilFormat) : Byte.byte :=
  match f with JPEG => Byte.x4a | PNG => Byte.x50 | WEBP => Byte.x57 end.

Definition encode (p : picture) (f : PilFormat) (o : SaveOpts) : bytes :=
  tag f :: zeros (pw p * ph p * quality o / 10000).

(** A stored file: a byte of width, a byte of height (units of ten
    pixels), then whatever the file holds. *)
Definition decode (b : bytes) : option picture :=
  match b with
  | w :: h :: _ =>
      Some (mkPic (10 * Z.of_N (Byte.to_N w)) (10 * Z.of_N (Byte.to_N h)))
  | _ => None
  end.

#[export] Instance imaging : Imaging := {|
  Img := picture;
  Image_open := decode;
  convert_RGB := fun p => p;
  size := fun p => (pw p, ph p);
  resize := fun _ '(w, h) => mkPic w h;
  expand := fun p border => mkPic (pw p + 2 * border) (ph p + 2 * border);
  Image_new_RGB := fun '(w, h) => mkPic w h;
  paste := fun canvas _ _ => canvas;
  save := encode
|}.

(** A file of [n] bytes holding a picture of [10w] by [10h] pixels. *)
Definition file (w h : N) (n : nat) : bytes :=
  match Byte.of_N w, Byte.of_N h with
  | Some bw, Some bh => bw :: bh :: List.repeat Byte.xff (n - 2)
  | _, _ => []
  end.

End Toy.

(** ** The regular expression of the size range

    A backtracking matcher for the operators the pattern uses; [a+] and
    [a?] are greedy, a group records the text it matched, and with
    [IGNORECASE] letters are compared in lower case. *)

Module Re.

Inductive re : Type :=
| Digit
| Chr (c : ascii)
| Seq (a b : re)
| Alt (a b : re)
| Opt (a : re)
| Plus (a : re)
| Group (a : re).

Definition chr_eq (ignorecase : bool) (x c : ascii) : bool :=
  if ignorecase then Ascii.eqb (Py.lower_char x) (Py.lower_char c) else Ascii.eqb x c.

(** The part of [s] read before [rest]. *)
Definition consumed (s rest : string) : string :=
  String.substring 0 (String.length s - String.length rest) s.

Definition cont : Type := string -> list string -> option (list string).

Fixpoint go (ignorecase : bool) (r : re) (s : string) (caps : list string) (k : cont)
    : option (list string) :=
  match r with
  | Digit =>
      match s with
      | String c s' => if Py.is_digit c then k s' caps else None
      | EmptyString => None
      end
  | Chr x =>
      match s with
      | String c s' => if chr_eq ignorecase x c then k s' caps else None
      | EmptyString => None
      end
  | Seq a b => go ignorecase a s caps (fun s1 c1 => go ignorecase b s1 c1 k)
  | Alt a b =>
      match go ignorecase a s caps k with
      | Some m => Some m
      | None => go ignorecase b s caps k
      end
  | Opt a =>
      match go ignorecase a s caps k with
      | Some m => Some m
      | None => k s caps
      end
  | Plus a =>
      (fix more (n : nat) (s : string) (caps : list string) : option (list string) :=
         go ignorecase a s caps (fun s1 c1 =>
           match n with
           | O => k s1 c1
           | S n' =>
               match more n' s1 c1 with
               | Some m => Some m
               | None => k s1 c1
               end
           end)) (String.length s) s caps
  | Group a => go ignorecase a s caps (fun s1 c1 => k s1 (c1 ++ [consumed s s1])%list)
  end.

(** [re.match(pattern, s, flags).groups()]: the match is anchored at the
    start of [s] only. *)
Definition re_match (ignorecase : bool) (r : re) (s : string) : option (list string) :=
  go ignorecase r s [] (fun _ caps => Some caps).

Definition lit2 (a b : ascii) : re := Seq (Chr a) (Chr b).

(** digits, an optional fraction, MB or KB *)
Definition size_with_unit : re :=
  Seq (Plus Digit)
      (Seq (Opt (Seq (Chr ".") (Plus Digit)))
           (Alt (lit2 "M" "B") (lit2 "K" "B"))).

End Re.

(** [size_pattern], the size range of the command *)
Definition size_pattern : Re.re :=
  Re.Seq (Re.Group Re.size_with_unit) (Re.Seq (Re.Chr "-") (Re.Group Re.size_with_unit)).

(** ** The conversation: [user_states] and the message handlers *)

(** An entry of [user_states]. *)
Record UserState : Type := mkState {
  file_id : string;
  waiting_for : string;
  original_size : Q
}.

(** What the handlers read of a text message. *)
Record Message : Type := mkMessage {
  from_user_id : Z;
  chat_id : Z;
  text : string
}.

(** The calls on the bot that send something. *)
Inductive Reply : Type :=
| reply_to (body : string)
| edit_message_text (body : string)
| delete_message
| send_document (document : bytes) (visible_file_name caption : string).

(** The chat transport.  [get_file] yields the path and the size of a
    file, [download_file] its bytes; [None] when the call raises.
    [delivers] tells whether a sending call returns or raises.  [now] is the
    clock, already formatted. *)
Record Transport : Type := mkTransport {
  get_file : string -> option (string * Z);
  download_file : string -> option bytes;
  delivers : Reply -> bool;
  now : string
}.

(** The signs of the replies, as their UTF-8 bytes, and the line break. *)
Definition cross_mark : string := String "226" (String "157" (String "140" "")).
Definition check_mark : string := String "226" (String "156" (String "133" "")).
Definition gear : string :=
  String "226" (String "154" (String "153" (String "239" (String "184" (String "143" ""))))).
Definition ruler : string :=
  String "240" (String "159" (String "147" (String "143" ""))).
Definition bar_chart : string :=
  String "240" (String "159" (String "147" (String "138" ""))).
Definition paperclip : string :=
  String "240" (String "159" (String "147" (String "142" ""))).
Definition nl : string := String "010" "".

(** [str(e)] *)
Definition exn_str (e : exn) : string :=
  match e with
  | ValueError msg => msg
  | KeyError => "KeyError"
  | OtherError what => what
  end.

Section Handlers.
Variable tr : Transport.

(** [ImageProcessor.process_image] of the file at hand. *)
Variable engine : bytes -> Q * Q -> string -> res (option bytes).

Definition send (r : Reply) : Eff Reply unit :=
  if delivers tr r then (Val tt, [r]) else (Raise (OtherError "transport"), []).

Definition lift {A : Type} (r : res A) : Eff Reply A := (r, []).

Definition from_option {A : Type} (o : option A) (e : exn) : Eff Reply A :=
  match o with
  | Some a => ret a
  | None => raise e
  end.

(** The filter of [handle_conversion_request]:
    the user is in [user_states] and awaited for 'size_format'. *)
Definition awaiting_spec (user_states : gmap Z UserState) (user_id : Z) : bool :=
  match user_states !! user_id with
  | Some entry => String.eqb (waiting_for entry) "size_format"
  | None => false
  end.

(** [handle_photo], for the largest photo [file] of the message.  The
    entry is written before the reply is sent. *)
Definition handle_photo (user_states : gmap Z UserState) (user_id : Z) (file : string)
    : gmap Z UserState * Eff Reply unit :=
  let failed := send (reply_to (cross_mark ++ " Error processing your photo. Please try again.")) in
  match get_file tr file with
  | None => (user_states, failed)
  | Some (_, file_size) =>
      let file_size := (inject_Z file_size / 1024)%Q in
      (<[user_id := mkState file "size_format" file_size]> user_states,
       try_except
         (send (reply_to
                  (ruler ++ " Current image size: " ++ Py.format_2f file_size ++ "KB" ++ nl
                   ++ "Please specify the target size range and format" ++ nl
                   ++ "Format: <size_range> <format>" ++ nl
                   ++ "Examples:" ++ nl
                   ++ "2MB-3MB JPG" ++ nl
                   ++ "500KB-1MB PNG")))
         (fun _ => failed))
  end.

(** The [try] block of [handle_conversion_request]. *)
Definition conversion_request (user_states : gmap Z UserState) (message : Message)
    : Eff Reply unit :=
  let user_id := from_user_id message in
  match Py.split (Py.strip (text message)) with
  | [size_range; output_format] =>
      let output_format := Py.upper output_format in
      match dict_get SUPPORTED_FORMATS output_format with
      | None =>
          raise (ValueError ("Unsupported format. Please use: "
                             ++ Py.join ", " (map fst SUPPORTED_FORMATS)))
      | Some _ =>
          match Re.re_match true size_pattern size_range with
          | Some [min_size_str; max_size_str] =>
              min_size_bytes <- lift (convert_to_bytes min_size_str) ;;
              max_size_bytes <- lift (convert_to_bytes max_size_str) ;;
              if Qle_bool max_size_bytes min_size_bytes
              then raise (ValueError "Minimum size must be less than maximum size.")
              else
                _ <- send (reply_to (gear ++ " Processing your image...")) ;;
                entry <- from_option (user_states !! user_id) KeyError ;;
                file_info <- from_option (get_file tr (file_id entry))
                               (OtherError "get_file") ;;
                downloaded_file <- from_option (download_file tr (fst file_info))
                                     (OtherError "download_file") ;;
                try_except
                  (processed_image <- lift (engine downloaded_file
                                              (min_size_bytes, max_size_bytes)
                                              output_format) ;;
                   match processed_image with
                   | Some (x :: rest) =>
                       let processed := x :: rest in
                       let filename :=
                         "converted_" ++ now tr ++ "." ++ Py.lower output_format in
                       let final_size := get_size_in_appropriate_unit (len processed) in
                       let original_size :=
                         get_size_in_appropriate_unit (len downloaded_file) in
                       _ <- send delete_message ;;
                       send (send_document processed filename
                               (check_mark ++ " Conversion successful!" ++ nl
                                ++ bar_chart ++ " Original size: " ++ original_size ++ nl
                                ++ bar_chart ++ " Final size: " ++ final_size ++ nl
                                ++ paperclip ++ " Format: " ++ output_format))
                   | _ =>
                       send (edit_message_text
                               (cross_mark
                                ++ " Could not process the image within the given constraints."
                                ++ nl ++ "Try a different size range or format."))
                   end)
                  (fun e =>
                     send (edit_message_text
                             (cross_mark ++ " Error processing image: " ++ exn_str e)))
          | _ =>
              raise (ValueError "Invalid size range format. Examples: 2MB-3MB, 500KB-1MB")
          end
      end
  | _ => raise (ValueError "Invalid format. Please use: <size_range> <format>")
  end.

(** [handle_conversion_request]: the [try] block, its two [except]
    clauses, and the [finally] clause that deletes the entry. *)
Definition handle_conversion_request (user_states : gmap Z UserState) (message : Message)
    : gmap Z UserState * Eff Reply unit :=
  let user_id := from_user_id message in
  let outcome :=
    try_except (conversion_request user_states message)
      (fun e =>
         match e with
         | ValueError msg => send (reply_to (cross_mark ++ " " ++ msg))
         | _ => send (reply_to (cross_mark ++ " An error occurred. Please try again."))
         end) in
  (match user_states !! user_id with
   | Some _ => delete user_id user_states
   | None => user_states
   end, outcome).

(** [handle_invalid] *)
Definition handle_invalid : Eff Reply unit :=
  send (reply_to (cross_mark
                  ++ " Invalid input. Please send an image or use /help for instructions.")).

(** A text that is not a command is for [handle_conversion_request] when
    its filter holds, for [handle_invalid] otherwise. *)
Definition on_text (user_states : gmap Z UserState) (message : Message)
    : gmap Z UserState * Eff Reply unit :=
  if awaiting_spec user_states (from_user_id message)
  then handle_conversion_request user_states message
  else (user_states, handle_invalid).

End Handlers.

(** A transport to run the handlers on: one stored file, every call
    succeeds. *)
Definition toy_transport : Transport :=
  mkTransport
    (fun file => if String.eqb file "photo-1" then Some ("photos/1.jpg", 390) else None)
    (fun path => if String.eqb path "photos/1.jpg" then Some (Toy.file 20 20 390) else None)
    (fun _ => true)
    "20240101_120000".

(** The same transport with downloads that fail. *)
Definition offline_transport : Transport :=
  mkTransport (get_file toy_transport) (fun _ => None) (fun _ => true) (now toy_transport).

(** The two engines on the toy encoder, as the handlers call them. *)
Definition toy_for_both (data : bytes) (target : Q * Q) (fmt : string) : res (option bytes) :=
  fst (for_both.process_image (H := Toy.imaging) data target fmt).

Definition toy_image_resize (data : bytes) (target : Q * Q) (fmt : string)
    : res (option bytes) :=
  fst (image_resize.process_image (H := Toy.imaging) data target fmt).

(** The calls of a handler, by kind. *)
Definition kinds (outcome : Eff Reply unit) : list string :=
  map (fun r =>
         match r with
         | reply_to _ => "reply_to"
         | edit_message_text _ => "edit_message_text"
         | delete_message => "delete_message"
         | send_document _ _ _ => "send_document"
         end) (snd outcome).

(** ** The searches as the specification words them

    The growth search is an ordered list of techniques, each a ladder of
    encodings to try; the shrink search is a list of geometries with a
    quality ladder at each.  These definitions follow the specification,
    not the code; the theorems below compare the two. *)

Module Spec.
Section Searches.
Context `{Imaging}.

(** One rung of a ladder: encode [enc] with [opts]; [cand] is the image
    the technique hands back when that encoding is large enough. *)
Record attempt : Type := mkAttempt { enc : Img; opts : SaveOpts; cand : Img }.

(** The first rung whose encoding reaches [target]. *)
Definition try_ladder (target : Q) (f : PilFormat) (l : list attempt) : M (option Img) :=
  for_in l (fun a =>
    b <- do_save (enc a) f (opts a) ;;
    if Qle_bool target (len b) then ret (Some (cand a)) else ret None).

(** Bloat metadata doubling from 1KB, ten rounds. *)
Definition metadata_ladder (img : Img) : list attempt :=
  map (fun i => mkAttempt img (mkOpts 100 (Some (Py.repeat_str "x" (1024 * 2 ^ i))) None) img)
      (seq 0 10).

(** The powers of 1.2 up to 4. *)
Definition scale_factors : list Q := map (fun k => Qpower 1.2 (Z.of_nat k)) (seq 1 7).

Definition scaled (img : Img) (factor : Q) : Img :=
  resize img (Py.int (inject_Z (fst (size img)) * factor),
              Py.int (inject_Z (snd (size img)) * factor)).

(** Each scale with the qualities 95 to 100. *)
Definition scaling_ladder (img : Img) : list attempt :=
  flat_map (fun factor =>
              map (fun q => mkAttempt (scaled img factor) (q_only q) (scaled img factor))
                  [95; 96; 97; 98; 99; 100])
           scale_factors.

(** A border of 100px, doubling up to 1000px. *)
Definition padding_ladder (img : Img) : list attempt :=
  map (fun border => mkAttempt (expand img border) (q_only 100) (expand img border))
      [100; 200; 400; 800].

(** The qualities 95 to 100 on the image as it is. *)
Definition quality_ladder (img : Img) : list attempt :=
  map (fun q => mkAttempt img (mkOpts q None (Some false)) img) [95; 96; 97; 98; 99; 100].

(** [n] copies of the image, one below the other. *)
Definition tiled (img : Img) (n : Z) : Img :=
  let '(w, h) := size img in
  fold_left (fun canvas i => paste canvas img (0, i * h))
            (map Z.of_nat (seq 0 (Z.to_nat n))) (Image_new_RGB (w, h * n)).

(** Two to four copies. *)
Definition tiling_ladder (img : Img) : list attempt :=
  map (fun n => mkAttempt (tiled img n) (q_only 100) (tiled img n)) [2; 3; 4].

Definition growth_techniques (img : Img) : list (list attempt) :=
  [ metadata_ladder img; scaling_ladder img; padding_ladder img;
    quality_ladder img; tiling_ladder img ].

(** The techniques in turn; a candidate is accepted when its encoding at
    quality 100 reaches [target]. *)
Fixpoint first_verified (target : Q) (f : PilFormat) (ls : list (list attempt))
    : M (option Img) :=
  match ls with
  | [] => ret None
  | l :: ls' =>
      c <- try_ladder target f l ;;
      match c with
      | Some i =>
          b <- do_save i f (q_only 100) ;;
          if Qle_bool target (len b) then ret (Some i) else first_verified target f ls'
      | None => first_verified target f ls'
      end
  end.

(** Both dimensions times 0.9, in whole pixels. *)
Definition shrunk (g : Z * Z) : Z * Z := (fst g * 9 / 10, snd g * 9 / 10).

(** The geometries of the shrink search from [g]: shrink while both
    dimensions are above 100px. *)
Inductive shrink_steps : Z * Z -> list (Z * Z) -> Prop :=
| steps_stop g :
    ~ (100 < fst g /\ 100 < snd g) -> shrink_steps g []
| steps_shrink g l :
    100 < fst g -> 100 < snd g -> shrink_steps (shrunk g) l ->
    shrink_steps g (shrunk g :: l).

(** The qualities from 95 down to 5 in steps of 5. *)
Definition quality_descent : list Z :=
  [95; 90; 85; 80; 75; 70; 65; 60; 55; 50; 45; 40; 35; 30; 25; 20; 15; 10; 5].

(** The encodings of the shrink search, in the order they are tried. *)
Definition shrink_attempts (img : Img) (geoms : list (Z * Z)) : list (Img * Z) :=
  flat_map (fun g => map (fun q => (resize img g, q)) quality_descent) geoms.

(** The first encoding whose length lies in [[lo, hi]]. *)
Definition first_in_range (lo hi : Q) (f : PilFormat) (l : list (Img * Z))
    : M (option bytes) :=
  for_in l (fun '(i, q) =>
    b <- do_save i f (q_only q) ;;
    if between lo (len b) hi then ret (Some b) else ret None).

(** The image the searches work on: the opened file, in RGB when the
    output is JPEG. *)
Definition prepared (f : PilFormat) (opened : Img) : Img :=
  if PilFormat_eqb f JPEG then convert_RGB opened else opened.

End Searches.
End Spec.

(** * Properties *)

(** ** Computations and loops *)

(** Two logs that differ in how their appends are nested. *)
Ltac trace_eq := rewrite ?app_nil_r, <- ?app_assoc; cbn [app]; reflexivity.

Section EffFacts.
Context {E : Type}.

(** A computation that ends with a value: no exception, fuel left. *)
Definition total {A : Type} (m : Eff E A) : Prop := exists a t, m = (Val a, t).

Lemma bind_val_inv {A B : Type} (m : Eff E A) (k : A -> Eff E B) b t :
  bind m k = (Val b, t) ->
  exists a t1 t2, m = (Val a, t1) /\ k a = (Val b, t2) /\ t = (t1 ++ t2)%list.
Proof.
  unfold bind. destruct m as [[a| |] t1]; try discriminate.
  destruct (k a) as [r t2] eqn:Hk. intros [= -> <-]. eauto 6.
Qed.

Lemma bind_val {A B : Type} (m : Eff E A) (k : A -> Eff E B) a t1 :
  m = (Val a, t1) -> bind m k = (fst (k a), (t1 ++ snd (k a))%list).
Proof. intros ->. unfold bind. now destruct (k a). Qed.

Lemma total_ret {A : Type} (a : A) : total (ret (E := E) a).
Proof. now exists a, []. Qed.

Lemma total_bind {A B : Type} (m : Eff E A) (k : A -> Eff E B) :
  total m -> (forall a, total (k a)) -> total (bind m k).
Proof.
  intros (a & t1 & ->) Hk. destruct (Hk a) as (b & t2 & Hb).
  exists b, (t1 ++ t2)%list. unfold bind. now rewrite Hb.
Qed.

Lemma total_for_in {A R : Type} (xs : list A) (body : A -> Eff E (option R)) :
  (forall x, total (body x)) -> total (for_in xs body).
Proof.
  intros Hb. induction xs as [|x xs IH]; simpl.
  - apply total_ret.
  - apply total_bind; [apply Hb|]. intros [v|]; [apply total_ret | exact IH].
Qed.

(** What a [for] loop returns was returned by one of its rounds. *)
Lemma for_in_inv {A R : Type} (xs : list A) (body : A -> Eff E (option R)) r t :
  for_in xs body = (Val (Some r), t) ->
  exists x tx, In x xs /\ body x = (Val (Some r), tx).
Proof.
  revert t. induction xs as [|x xs IH]; simpl; intros t Hf.
  - discriminate.
  - apply bind_val_inv in Hf as ([v|] & t1 & t2 & Hx & Hk & ->).
    + injection Hk as -> <-. exists x, t1. auto.
    + destruct (IH _ Hk) as (y & ty & Hy & Hby). exists y, ty. auto.
Qed.

(** What a [while] loop returns was returned by one of its rounds. *)
Lemma while_inv {S R : Type} fuel (cond : S -> bool) (body : S -> Eff E (step S R)) s r t :
  while fuel cond body s = (Val (Some r), t) ->
  exists s' ts, cond s' = true /\ body s' = (Val (Return r), ts).
Proof.
  revert s t. induction fuel as [|fuel IH]; simpl; intros s t Hw.
  - destruct (cond s); discriminate.
  - destruct (cond s) eqn:Hc; [|discriminate].
    apply bind_val_inv in Hw as (st & t1 & t2 & Hb & Hk & ->).
    destruct st as [s'| |r'].
    + eapply IH; eauto.
    + discriminate.
    + injection Hk as -> <-. eauto.
Qed.

(** The values a loop variable takes when each round that does not
    return replaces [s] by [g s]; [None] when [fuel] rounds do not reach
    the end. *)
Fixpoint orbit {S : Type} (fuel : nat) (cond : S -> bool) (g : S -> S) (s : S)
    : option (list S) :=
  if cond s then
    match fuel with
    | O => None
    | Datatypes.S fuel' =>
        match orbit fuel' cond g (g s) with
        | Some l => Some (s :: l)
        | None => None
        end
    end
  else Some [].

Definition attempt_then {S R : Type} (attempt : S -> Eff E (option R)) (g : S -> S)
    (s : S) : Eff E (step S R) :=
  r <- attempt s ;;
  match r with
  | Some v => ret (Return v)
  | None => ret (Next (g s))
  end.

(** Such a [while] loop is a [for] loop over the orbit. *)
Lemma while_for_in {S R : Type} fuel (cond : S -> bool) (g : S -> S)
    (attempt : S -> Eff E (option R)) (body : S -> Eff E (step S R)) s l :
  (forall s, body s = attempt_then attempt g s) ->
  orbit fuel cond g s = Some l ->
  while fuel cond body s = for_in l attempt.
Proof.
  intros Hb. revert s l. induction fuel as [|fuel IH]; simpl; intros s l Ho.
  - destruct (cond s); [discriminate|]. now injection Ho as <-.
  - destruct (cond s); [|now injection Ho as <-].
    destruct (orbit fuel cond g (g s)) as [l'|] eqn:Hl; [|discriminate].
    injection Ho as <-. rewrite Hb. unfold attempt_then. simpl.
    destruct (attempt s) as [[[v|]| |] t]; simpl; try reflexivity.
    + now rewrite app_nil_r.
    + rewrite (IH _ _ Hl).
      destruct (for_in l' attempt) as [r t']. now rewrite app_nil_r.
Qed.

(** A loop whose rounds end with a value, and step by [g] when they go on,
    ends within the fuel that covers the orbit. *)
Lemma while_total {S R : Type} fuel (cond : S -> bool) (g : S -> S)
    (body : S -> Eff E (step S R)) s l :
  (forall s, exists st t, body s = (Val st, t) /\ (forall s', st = Next s' -> s' = g s)) ->
  orbit fuel cond g s = Some l ->
  total (while fuel cond body s).
Proof.
  intros Hb. revert s l. induction fuel as [|fuel IH]; simpl; intros s l Ho.
  - destruct (cond s); [discriminate | apply total_ret].
  - destruct (cond s); [|apply total_ret].
    destruct (orbit fuel cond g (g s)) as [l'|] eqn:Hl; [|discriminate].
    destruct (Hb s) as (st & t & Hs & Hnext). rewrite Hs. cbn [bind].
    destruct st as [s'| |r]; [|now eexists _, _..].
    rewrite (Hnext s' eq_refl).
    destruct (IH _ _ Hl) as (a & t' & ->). now eexists _, _.
Qed.

Lemma orbit_more {S : Type} (cond : S -> bool) (g : S -> S) fuel fuel' s l :
  orbit fuel cond g s = Some l -> (fuel <= fuel')%nat -> orbit fuel' cond g s = Some l.
Proof.
  revert fuel' s l. induction fuel as [|fuel IH]; simpl; intros fuel' s l Ho Hle.
  - destruct (cond s) eqn:Hc; [discriminate|]. destruct fuel'; simpl; now rewrite Hc.
  - destruct fuel' as [|fuel']; [lia|]. simpl. destruct (cond s); [|exact Ho].
    destruct (orbit fuel cond g (g s)) as [l'|] eqn:Hl; [|discriminate].
    rewrite (IH fuel' _ _ Hl); [exact Ho | lia].
Qed.

Lemma for_in_app {A R : Type} (xs ys : list A) (body : A -> Eff E (option R)) :
  for_in (xs ++ ys) body =
  (r <- for_in xs body ;;
   match r with Some v => ret (Some v) | None => for_in ys body end).
Proof.
  induction xs as [|x xs IH]; simpl.
  - destruct (for_in ys body) as [r t]. unfold bind, ret. simpl. now destruct r as [[v|]| |].
  - destruct (body x) as [[[v|]| |] t]; simpl; rewrite ?app_nil_r; try reflexivity.
    rewrite IH.
    destruct (for_in xs body) as [[[w|]| |] t1]; simpl; rewrite ?app_nil_r; try reflexivity.
    destruct (for_in ys body) as [r t2]. simpl. now rewrite app_assoc.
Qed.

Lemma try_except_raise {A : Type} (e : exn) (h : exn -> Eff E A) :
  try_except (raise e) h = h e.
Proof. unfold try_except, raise. now destruct (h e). Qed.

Lemma for_in_ext {A R : Type} (xs : list A) (body body' : A -> Eff E (option R)) :
  (forall x, body x = body' x) -> for_in xs body = for_in xs body'.
Proof.
  intros Hb. induction xs as [|x xs IH]; simpl; [reflexivity|]. now rewrite Hb, IH.
Qed.

Lemma for_in_ext_in {A R : Type} (xs : list A) (body body' : A -> Eff E (option R)) :
  (forall x, In x xs -> body x = body' x) -> for_in xs body = for_in xs body'.
Proof.
  induction xs as [|x xs IH]; simpl; intros Hb; [reflexivity|].
  rewrite Hb, IH; auto.
Qed.

Lemma for_in_map {A B R : Type} (f : A -> B) (xs : list A) (body : B -> Eff E (option R)) :
  for_in (map f xs) body = for_in xs (fun x => body (f x)).
Proof.
  induction xs as [|x xs IH]; simpl; [reflexivity|]. now rewrite IH.
Qed.

Lemma for_in_flat_map {A B R : Type} (f : A -> list B) (xs : list A)
    (body : B -> Eff E (option R)) :
  for_in (flat_map f xs) body = for_in xs (fun x => for_in (f x) body).
Proof.
  induction xs as [|x xs IH]; simpl; [reflexivity|]. now rewrite for_in_app, IH.
Qed.

End EffFacts.

(** ** The growth techniques of for_both.py are the ladders of the specification *)

Section GrowthLadders.
Context `{Imaging}.
Import for_both.

Lemma str_app_assoc (a b c : string) : (a ++ b) ++ c = a ++ (b ++ c).
Proof. induction a as [|x a IH]; simpl; [reflexivity | now rewrite IH]. Qed.

Lemma repeat_str_app (s : string) (n m : nat) :
  Py.repeat_str s n ++ Py.repeat_str s m = Py.repeat_str s (n + m).
Proof.
  induction n as [|n IH]; cbn [Py.repeat_str Nat.add]; [reflexivity|].
  now rewrite str_app_assoc, IH.
Qed.

Lemma add_metadata_rounds_ladder (rounds k : nat) img target f :
  _add_metadata_rounds rounds img target f (Py.repeat_str "x" k) =
  Spec.try_ladder target f
    (map (fun i => Spec.mkAttempt img
                     (mkOpts 100 (Some (Py.repeat_str "x" (k * 2 ^ i))) None) img)
         (seq 0 rounds)).
Proof.
  revert k. induction rounds as [|n IH]; intro k; [reflexivity|].
  unfold Spec.try_ladder in *.
  cbn [_add_metadata_rounds seq map for_in Spec.enc Spec.opts Spec.cand].
  replace (k * 2 ^ 0)%nat with k by (simpl; lia).
  unfold do_save at 1 2. cbn [bind].
  destruct (Qle_bool target (len _)); cbn [ret]; [reflexivity|].
  rewrite repeat_str_app, IH, <- seq_shift, map_map.
  cbn [bind app].
  rewrite (map_ext
    (fun x : nat => Spec.mkAttempt img
       (mkOpts 100 (Some (Py.repeat_str "x" (k * 2 ^ S x))) None) img)
    (fun i : nat => Spec.mkAttempt img
       (mkOpts 100 (Some (Py.repeat_str "x" ((k + k) * 2 ^ i))) None) img)).
  - reflexivity.
  - intro i. do 4 f_equal. cbn [Nat.pow]. lia.
Qed.

Lemma add_metadata_ladder img target f :
  _add_metadata img target f = Spec.try_ladder target f (Spec.metadata_ladder img).
Proof. apply (add_metadata_rounds_ladder 10 1024). Qed.

Lemma range_95_101 : Py.range 95 101 = [95; 96; 97; 98; 99; 100].
Proof. reflexivity. Qed.

Lemma range_down_95_4_5 : Py.range_down 32 95 4 5 = Spec.quality_descent.
Proof. reflexivity. Qed.

Lemma orbit_scale_factors :
  orbit loop_fuel (fun scale_factor => Qle_bool scale_factor 4)
    (fun scale_factor => (scale_factor * 1.2)%Q) 1.2%Q = Some Spec.scale_factors.
Proof. vm_compute. reflexivity. Qed.

Lemma increase_by_scaling_ladder img target f :
  _increase_by_scaling img target f = Spec.try_ladder target f (Spec.scaling_ladder img).
Proof.
  unfold _increase_by_scaling, Spec.try_ladder, Spec.scaling_ladder, Spec.scaled.
  destruct (size img) as [width height]. cbn [fst snd].
  rewrite for_in_flat_map.
  erewrite while_for_in; [| intro; reflexivity | exact orbit_scale_factors].
  apply for_in_ext. intro factor. now rewrite for_in_map, range_95_101.
Qed.

Lemma increase_by_padding_ladder img target f :
  _increase_by_padding img target f = Spec.try_ladder target f (Spec.padding_ladder img).
Proof.
  unfold _increase_by_padding, Spec.try_ladder, Spec.padding_ladder.
  rewrite for_in_map. cbn [Spec.enc Spec.opts Spec.cand].
  apply (while_for_in loop_fuel _ (fun padding => padding * 2)); [|reflexivity].
  intro padding. unfold attempt_then, do_save. cbn [bind].
  now destruct (Qle_bool target (len _)).
Qed.

Lemma increase_by_quality_ladder img target f :
  _increase_by_quality img target f = Spec.try_ladder target f (Spec.quality_ladder img).
Proof.
  unfold _increase_by_quality, Spec.try_ladder, Spec.quality_ladder.
  now rewrite for_in_map, range_95_101.
Qed.

Lemma range_from_0 (n : Z) : Py.range 0 n = map Z.of_nat (seq 0 (Z.to_nat n)).
Proof. unfold Py.range. rewrite Z.sub_0_r. apply map_ext. intro i. lia. Qed.

Lemma increase_by_duplicate_ladder img target f :
  _increase_by_duplicate img target f = Spec.try_ladder target f (Spec.tiling_ladder img).
Proof.
  unfold _increase_by_duplicate, Spec.try_ladder, Spec.tiling_ladder, Spec.tiled.
  rewrite for_in_map. cbn [Spec.enc Spec.opts Spec.cand].
  destruct (size img) as [width height].
  apply (while_for_in loop_fuel _ (fun multiplier => multiplier + 1)); [|reflexivity].
  intro multiplier. unfold attempt_then. rewrite range_from_0. unfold do_save. cbn [bind].
  now destruct (Qle_bool target (len _)).
Qed.

Lemma verified_step (tech rest : M (option Img)) target f :
  (r <- (result <- tech ;;
         match result with
         | Some r =>
             ok <- _verify_size r target f ;;
             if ok then ret (Some r) else ret None
         | None => ret None
         end) ;;
   match r with Some v => ret (Some v) | None => rest end) =
  (c <- tech ;;
   match c with
   | Some i =>
       b <- do_save i f (q_only 100) ;;
       if Qle_bool target (len b) then ret (Some i) else rest
   | None => rest
   end).
Proof.
  destruct tech as [[[i|]| |] t]; try reflexivity.
  - unfold _verify_size, do_save. cbn [bind ret app].
    destruct (Qle_bool target (len _)); cbn [bind ret app].
    + trace_eq.
    + destruct rest as [r t']. trace_eq.
  - cbn [bind ret app]. destruct rest as [r t']. trace_eq.
Qed.

(** [increase_image_size] is the search of the specification over the
    five ladders, in their order. *)
Lemma increase_image_size_spec img target f :
  increase_image_size img target f =
  Spec.first_verified target f (Spec.growth_techniques img).
Proof.
  unfold increase_image_size, techniques, Spec.growth_techniques.
  cbn [for_in Spec.first_verified].
  rewrite <- add_metadata_ladder, <- increase_by_scaling_ladder,
    <- increase_by_padding_ladder, <- increase_by_quality_ladder,
    <- increase_by_duplicate_ladder.
  rewrite !verified_step. reflexivity.
Qed.

End GrowthLadders.

(** ** Comparisons on floats *)

Lemma Qlt_bool_iff (a b : Q) : Qlt_bool a b = true <-> (a < b)%Q.
Proof.
  unfold Qlt_bool. rewrite negb_true_iff. split.
  - intros Hf. apply Qnot_le_lt. intros Hle. apply Qle_bool_iff in Hle. congruence.
  - intros Hlt. destruct (Qle_bool b a) eqn:Hle; [|reflexivity].
    apply Qle_bool_iff in Hle. exfalso. exact (Qlt_not_le _ _ Hlt Hle).
Qed.

Lemma Qlt_bool_false (a b : Q) : (b <= a)%Q -> Qlt_bool a b = false.
Proof.
  intros Hle. unfold Qlt_bool. apply negb_false_iff. now apply Qle_bool_iff.
Qed.

Lemma between_iff (lo x hi : Q) : between lo x hi = true <-> (lo <= x /\ x <= hi)%Q.
Proof. unfold between. now rewrite andb_true_iff, !Qle_bool_iff. Qed.

(** ** The shrink search of for_both.py *)

Section ShrinkSearch.
Context `{Imaging}.
Import for_both.

Definition above_floor (g : Z * Z) : bool :=
  let '(width, height) := g in ((100 <? width) && (100 <? height))%bool.

Definition next_geometry (g : Z * Z) : Z * Z :=
  let '(width, height) := g in
  (Py.int (inject_Z width * 0.9), Py.int (inject_Z height * 0.9)).

Lemma int_scale_09 (d : Z) : 0 <= d -> Py.int (inject_Z d * 0.9) = d * 9 / 10.
Proof.
  intros Hd. unfold Py.int. cbn [Qnum Qden Qmult inject_Z].
  rewrite Z.quot_div_nonneg; [reflexivity | lia | reflexivity].
Qed.

Lemma next_geometry_shrunk g : above_floor g = true -> next_geometry g = Spec.shrunk g.
Proof.
  destruct g as [w h]. unfold above_floor, next_geometry, Spec.shrunk. cbn [fst snd].
  intros [Hw Hh]%andb_true_iff. apply Z.ltb_lt in Hw, Hh.
  now rewrite !int_scale_09 by lia.
Qed.

(** The loop ends within the fuel it is given, and its rounds are the
    shrink steps of the specification. *)
Lemma shrink_orbit (n : nat) (g : Z * Z) :
  (Z.to_nat (fst g) <= n)%nat ->
  exists l, orbit n above_floor next_geometry g = Some l
            /\ Spec.shrink_steps g (map Spec.shrunk l)
            /\ Forall (fun s => above_floor s = true) l.
Proof.
  revert g. induction n as [|n IH]; intros g Hn; cbn [orbit].
  - destruct (above_floor g) eqn:Hc.
    + destruct g as [w h]. cbn in Hc, Hn.
      apply andb_true_iff in Hc as [Hw _]. apply Z.ltb_lt in Hw. lia.
    + exists []. repeat split; [|constructor]. apply Spec.steps_stop.
      destruct g as [w h]. cbn in Hc |- *. intros [Hw Hh].
      apply andb_false_iff in Hc as [Hc|Hc]; apply Z.ltb_ge in Hc; lia.
  - destruct (above_floor g) eqn:Hc.
    + pose proof (next_geometry_shrunk g Hc) as Hg.
      destruct g as [w h]. cbn in Hn.
      pose proof Hc as Hc'. cbn in Hc'.
      apply andb_true_iff in Hc' as [Hw Hh]. apply Z.ltb_lt in Hw, Hh.
      destruct (IH (next_geometry (w, h))) as (l & Hl & Hs & Hf).
      { rewrite Hg. cbn [Spec.shrunk fst snd].
        assert (w * 9 / 10 < w) by (apply Z.div_lt_upper_bound; lia). lia. }
      exists ((w, h) :: l). rewrite Hl. repeat split.
      * cbn [map]. rewrite Hg in Hs. now apply Spec.steps_shrink.
      * now constructor.
    + exists []. repeat split; [|constructor]. apply Spec.steps_stop.
      destruct g as [w h]. cbn in Hc |- *. intros [Hw Hh].
      apply andb_false_iff in Hc as [Hc|Hc]; apply Z.ltb_ge in Hc; lia.
Qed.

Lemma shrink_block_spec img lo hi f :
  exists geoms,
    Spec.shrink_steps (size img) geoms /\
    shrink_block img lo hi f = Spec.first_in_range lo hi f (Spec.shrink_attempts img geoms).
Proof.
  destruct (shrink_orbit (Z.to_nat (fst (size img))) (size img)) as (l & Hl & Hs & Hf);
    [lia|].
  exists (map Spec.shrunk l). split; [exact Hs|].
  unfold shrink_block, Spec.first_in_range, Spec.shrink_attempts.
  rewrite for_in_flat_map, for_in_map.
  erewrite (while_for_in _ _ next_geometry
              (fun s => for_in (Py.range_down 32 95 4 5) (fun quality =>
                 b <- do_save (resize img (next_geometry s)) f (q_only quality) ;;
                 if between lo (len b) hi then ret (Some b) else ret None))).
  - apply for_in_ext_in. intros s Hin.
    rewrite Forall_forall in Hf. rewrite (next_geometry_shrunk s (Hf s Hin)).
    now rewrite for_in_map, range_down_95_4_5.
  - intros [w h]. reflexivity.
  - exact Hl.
Qed.

End ShrinkSearch.

(** ** [process_image] of for_both.py, case by case *)

Section ForBothCases.
Context `{Imaging}.
Import for_both.

Lemma total_do_save i f o : total (do_save i f o).
Proof. now exists (save i f o), [(i, f, o)]. Qed.

Lemma total_try_ladder target f l : total (Spec.try_ladder target f l).
Proof.
  apply total_for_in. intro a. apply total_bind; [apply total_do_save|].
  intro b. destruct (Qle_bool target (len b)); apply total_ret.
Qed.

Lemma total_first_verified target f ls : total (Spec.first_verified target f ls).
Proof.
  induction ls as [|l ls IH]; cbn [Spec.first_verified]; [apply total_ret|].
  apply total_bind; [apply total_try_ladder|]. intros [i|]; [|exact IH].
  apply total_bind; [apply total_do_save|].
  intro b. destruct (Qle_bool target (len b)); [apply total_ret | exact IH].
Qed.

Lemma total_first_in_range lo hi f l : total (Spec.first_in_range lo hi f l).
Proof.
  apply total_for_in. intros [i q]. apply total_bind; [apply total_do_save|].
  intro b. destruct (between lo (len b) hi); apply total_ret.
Qed.

(** The growth search ends, whatever the encoder answers. *)
Lemma total_increase_image_size img target f : total (increase_image_size img target f).
Proof. rewrite increase_image_size_spec. apply total_first_verified. Qed.

(** So does the shrink search. *)
Lemma total_shrink_block img lo hi f : total (shrink_block img lo hi f).
Proof.
  destruct (shrink_block_spec img lo hi f) as (geoms & _ & ->).
  apply total_first_in_range.
Qed.

Lemma grow_block_cases img lo hi f r tg :
  increase_image_size img lo f = (Val r, tg) ->
  grow_block img lo hi f =
  match r with
  | Some c =>
      let b := save c f (q_only 95) in
      (Val (if between lo (len b) hi then Some b else None),
       (tg ++ [(c, f, q_only 95)])%list)
  | None => (Val None, tg)
  end.
Proof.
  intros Hi. unfold grow_block. rewrite Hi. destruct r as [c|]; cbn [bind ret do_save].
  - destruct (between lo (len _) hi); cbn [ret]; trace_eq.
  - trace_eq.
Qed.

Lemma total_grow_block img lo hi f : total (grow_block img lo hi f).
Proof.
  destruct (total_increase_image_size img lo f) as (r & tg & Hi).
  rewrite (grow_block_cases _ _ _ _ _ _ Hi). destruct r; cbn; unfold total; eauto.
Qed.

Lemma process_image_opened data lo hi fmt f opened :
  dict_get SUPPORTED_FORMATS fmt = Some f ->
  Image_open data = Some opened ->
  process_image data (lo, hi) fmt =
  (grown <- (if Qlt_bool (len data) lo
             then grow_block (Spec.prepared f opened) lo hi f else ret None) ;;
   match grown with
   | Some b => ret (Some b)
   | None =>
       shrunk <- (if (Qlt_bool hi (len data) || Qlt_bool (len data) lo)%bool
                  then shrink_block (Spec.prepared f opened) lo hi f else ret None) ;;
       match shrunk with
       | Some b => ret (Some b)
       | None => ret None
       end
   end).
Proof. intros Hf Ho. unfold process_image. now rewrite Hf, Ho. Qed.

(** Below the interval: the growth block first, the shrink block only
    when the growth block did not return. *)
Lemma process_image_below data lo hi fmt f opened :
  dict_get SUPPORTED_FORMATS fmt = Some f ->
  Image_open data = Some opened ->
  (len data < lo)%Q ->
  let img := Spec.prepared f opened in
  exists r tg,
    grow_block img lo hi f = (Val r, tg) /\
    process_image data (lo, hi) fmt =
    match r with
    | Some b => (Val (Some b), tg)
    | None => (fst (shrink_block img lo hi f), (tg ++ snd (shrink_block img lo hi f))%list)
    end.
Proof.
  intros Hf Ho Hlt img.
  destruct (total_grow_block img lo hi f) as (r & tg & Hg).
  exists r, tg. split; [exact Hg|].
  rewrite (process_image_opened _ _ _ _ _ _ Hf Ho).
  apply Qlt_bool_iff in Hlt. rewrite Hlt, orb_true_r. fold img. rewrite Hg.
  destruct r as [b|]; cbn [bind ret]; [trace_eq|].
  destruct (shrink_block img lo hi f) as [[[b|]| |] ts]; cbn [bind ret fst snd]; trace_eq.
Qed.

(** Above the interval: the shrink block alone. *)
Lemma process_image_above data lo hi fmt f opened :
  dict_get SUPPORTED_FORMATS fmt = Some f ->
  Image_open data = Some opened ->
  (lo < hi)%Q -> (hi < len data)%Q ->
  process_image data (lo, hi) fmt = shrink_block (Spec.prepared f opened) lo hi f.
Proof.
  intros Hf Ho Hlh Hgt.
  rewrite (process_image_opened _ _ _ _ _ _ Hf Ho).
  rewrite (Qlt_bool_false (len data) lo)
    by (apply Qlt_le_weak; eapply Qlt_trans; eassumption).
  apply Qlt_bool_iff in Hgt. rewrite Hgt. cbn [orb bind ret].
  destruct (shrink_block _ lo hi f) as [[[b|]| |] ts]; cbn [bind ret]; trace_eq.
Qed.

(** Inside the interval: neither block runs. *)
Lemma process_image_inside data lo hi fmt f opened :
  dict_get SUPPORTED_FORMATS fmt = Some f ->
  Image_open data = Some opened ->
  (lo <= len data)%Q -> (len data <= hi)%Q ->
  process_image data (lo, hi) fmt = (Val None, []).
Proof.
  intros Hf Ho Hlo Hhi.
  rewrite (process_image_opened _ _ _ _ _ _ Hf Ho).
  now rewrite (Qlt_bool_false _ _ Hlo), (Qlt_bool_false _ _ Hhi).
Qed.

Lemma grow_block_sound img lo hi f b t :
  grow_block img lo hi f = (Val (Some b), t) ->
  between lo (len b) hi = true /\ exists i o, b = save i f o.
Proof.
  destruct (total_increase_image_size img lo f) as (r & tg & Hi).
  rewrite (grow_block_cases _ _ _ _ _ _ Hi).
  destruct r as [c|]; [|discriminate]. cbn zeta.
  destruct (between lo (len (save c f (q_only 95))) hi) eqn:Hb; [|discriminate].
  intros [= <- _]. eauto.
Qed.

Lemma shrink_block_sound img lo hi f b t :
  shrink_block img lo hi f = (Val (Some b), t) ->
  between lo (len b) hi = true /\ exists i o, b = save i f o.
Proof.
  destruct (shrink_block_spec img lo hi f) as (geoms & _ & ->).
  intros Hs. apply for_in_inv in Hs as ([i q] & tx & _ & Hx).
  unfold do_save in Hx. cbn [bind] in Hx.
  destruct (between lo (len (save i f (q_only q))) hi) eqn:Hb; [|discriminate].
  injection Hx as <- _. eauto.
Qed.

(** Whatever for_both.py returns fits the interval and is an encoding in
    the format asked for. *)
Lemma for_both_fit_sound data lo hi fmt b t :
  process_image data (lo, hi) fmt = (Val (Some b), t) ->
  (lo <= len b <= hi)%Q /\
  exists f i o, dict_get SUPPORTED_FORMATS fmt = Some f /\ b = save i f o.
Proof.
  destruct (dict_get SUPPORTED_FORMATS fmt) as [f|] eqn:Hf;
    [|unfold process_image; rewrite Hf; discriminate].
  destruct (Image_open data) as [opened|] eqn:Ho;
    [|unfold process_image; rewrite Hf, Ho; discriminate].
  rewrite (process_image_opened _ _ _ _ _ _ Hf Ho). intros Hp.
  assert (between lo (len b) hi = true /\ exists i o, b = save i f o) as [Hb (i & o & ->)].
  { apply bind_val_inv in Hp as (grown & t1 & t2 & Hg & Hk & ->).
    destruct grown as [b'|].
    - injection Hk as -> _.
      destruct (Qlt_bool (len data) lo); [|discriminate].
      eapply grow_block_sound; eassumption.
    - apply bind_val_inv in Hk as (shrunk & t3 & t4 & Hs & Hk & ->).
      destruct shrunk as [b'|]; [|discriminate]. injection Hk as -> _.
      destruct (Qlt_bool hi (len data) || Qlt_bool (len data) lo)%bool; [|discriminate].
      eapply shrink_block_sound; eassumption. }
  split; [now apply between_iff | eauto].
Qed.

(** It always answers: an exception for a format it does not know or a
    file it cannot open, a value otherwise. *)
Lemma for_both_answers data lo hi fmt :
  dict_get SUPPORTED_FORMATS fmt <> None -> Image_open data <> None ->
  total (process_image data (lo, hi) fmt).
Proof.
  intros Hf Ho.
  destruct (dict_get SUPPORTED_FORMATS fmt) as [f|] eqn:Hf'; [|congruence].
  destruct (Image_open data) as [opened|] eqn:Ho'; [|congruence].
  rewrite (process_image_opened _ _ _ _ _ _ Hf' Ho').
  apply total_bind.
  - destruct (Qlt_bool (len data) lo); [apply total_grow_block | apply total_ret].
  - intros [b|]; [apply total_ret|]. apply total_bind.
    + destruct (_ || _)%bool; [apply total_shrink_block | apply total_ret].
    + intros [b|]; apply total_ret.
Qed.

End ForBothCases.

(** ** [process_image] of image_resize.py on a file already inside the interval *)

Section ImageResizeCases.
Context `{Imaging}.
Import image_resize.

Lemma image_resize_inside data lo hi fmt f opened :
  dict_get SUPPORTED_FORMATS fmt = Some f ->
  Image_open data = Some opened ->
  (lo <= len data)%Q -> (len data <= hi)%Q ->
  let img := Spec.prepared f opened in
  process_image data (lo, hi) fmt = (Val (Some (save img f (q_only 95))), [(img, f, q_only 95)]).
Proof.
  intros Hf Ho Hlo Hhi img. unfold process_image. rewrite Hf, Ho.
  rewrite (Qlt_bool_false _ _ Hlo), (Qlt_bool_false _ _ Hhi).
  cbn [orb bind ret app].
  assert (between lo (len data) hi = true) as -> by now apply between_iff.
  reflexivity.
Qed.

Lemma try_save_image_ladder img f hi w h :
  try_save_image img f hi w h =
  for_in Spec.quality_descent (fun q =>
    b <- do_save (resize img (w, h)) f (q_only q) ;;
    if Qle_bool (len b) hi then ret (Some (b, len b)) else ret None).
Proof. reflexivity. Qed.

Lemma orbit_growth_factors :
  orbit loop_fuel (fun scale_factor => Qle_bool scale_factor MAX_SCALING_FACTOR)
    (fun scale_factor => (scale_factor * 1.1)%Q) 1.1%Q
  = Some (map (fun k => Qpower 1.1 (Z.of_nat k)) (seq 1 7)).
Proof. vm_compute. reflexivity. Qed.

Lemma total_try_save_image img f hi w h : total (try_save_image img f hi w h).
Proof.
  apply total_for_in. intro q. apply total_bind; [apply total_do_save|].
  intro b. cbn zeta. destruct (Qle_bool (len b) hi); apply total_ret.
Qed.

(** The two loops of image_resize.py end. *)
Lemma total_image_resize_grow img lo hi f : total (grow_block img lo hi f).
Proof.
  unfold grow_block. destruct (size img) as [w h].
  eapply while_total; [|exact orbit_growth_factors].
  intro sf. unfold do_save. cbn [bind]. cbn zeta.
  destruct (between lo _ hi); [eexists _, _; split; [reflexivity | discriminate]|].
  destruct (Qlt_bool hi _); eexists _, _; (split; [reflexivity|]); [discriminate|].
  now intros s' [= <-].
Qed.

Lemma total_image_resize_shrink img lo hi f : total (shrink_block img lo hi f).
Proof.
  unfold shrink_block. destruct (size img) as [w h].
  destruct (shrink_orbit (Z.to_nat w) (w, h)) as (l & Hl & _); [cbn; lia|].
  eapply (while_total _ _ next_geometry); [|exact Hl].
  intros [w' h'].
  destruct (total_try_save_image img f hi w' h') as ([[result sz]|] & t & ->); cbn [bind].
  - destruct (truthy result && between lo sz hi)%bool;
      eexists _, _; (split; [reflexivity|]); [discriminate|].
    now intros s' [= <-].
  - eexists _, _. split; [reflexivity|]. now intros s' [= <-].
Qed.

(** Its growth and shrink loops return what they have measured. *)
Lemma image_resize_grow_sound img lo hi f b t :
  grow_block img lo hi f = (Val (Some b), t) ->
  between lo (len b) hi = true /\ exists i o, b = save i f o.
Proof.
  unfold grow_block. destruct (size img) as [w h]. intros Hw.
  apply while_inv in Hw as (sf & ts & _ & Hb).
  unfold do_save in Hb. cbn [bind] in Hb. cbn zeta in Hb.
  destruct (between lo _ hi) eqn:Hin.
  - injection Hb as <- _. eauto.
  - destruct (Qlt_bool hi _); discriminate.
Qed.

Lemma image_resize_shrink_sound img lo hi f b t :
  shrink_block img lo hi f = (Val (Some b), t) ->
  between lo (len b) hi = true /\ exists i o, b = save i f o.
Proof.
  unfold shrink_block. destruct (size img) as [w h]. intros Hw.
  apply while_inv in Hw as ([w' h'] & ts & _ & Hb).
  apply bind_val_inv in Hb as (r & t1 & t2 & Ht & Hk & ->).
  destruct r as [[result sz]|]; [|discriminate].
  destruct (truthy result && between lo sz hi)%bool eqn:Hin; [|discriminate].
  injection Hk as -> _. apply andb_true_iff in Hin as [_ Hin].
  apply for_in_inv in Ht as (q & tq & _ & Hq).
  unfold do_save in Hq. cbn [bind] in Hq. cbn zeta in Hq.
  destruct (Qle_bool _ hi); [|discriminate].
  injection Hq as <- <- _. eauto.
Qed.

(** It always answers as well. *)
Lemma image_resize_answers data lo hi fmt :
  dict_get SUPPORTED_FORMATS fmt <> None -> Image_open data <> None ->
  total (process_image data (lo, hi) fmt).
Proof.
  intros Hf Ho. unfold process_image.
  destruct (dict_get SUPPORTED_FORMATS fmt) as [f|]; [|congruence].
  destruct (Image_open data) as [opened|]; [|congruence].
  apply total_bind.
  - destruct (Qlt_bool (len data) lo); [apply total_image_resize_grow | apply total_ret].
  - intros [b|]; [apply total_ret|]. apply total_bind.
    + destruct (_ || _)%bool; [apply total_image_resize_shrink | apply total_ret].
    + intros [b|]; [apply total_ret|].
      destruct (between lo (len data) hi); [|apply total_ret].
      apply total_bind; [apply total_do_save | intro; apply total_ret].
Qed.

End ImageResizeCases.

(** ** Strings of numerals *)

Section Numerals.

(** Every character of [s] passes [p]. *)
Fixpoint str_forall (p : ascii -> bool) (s : string) : bool :=
  match s with
  | EmptyString => true
  | String c s' => (p c && str_forall p s')%bool
  end.

Definition numeral_char (c : ascii) : bool := (Py.is_digit c || Ascii.eqb c ".")%bool.

Definition differs (a : ascii) (c : ascii) : bool := negb (Ascii.eqb a c).

Lemma str_forall_app p a b : str_forall p (a ++ b) = (str_forall p a && str_forall p b)%bool.
Proof. induction a as [|c a IH]; simpl; [reflexivity|]. now rewrite IH, andb_assoc. Qed.

Lemma str_forall_impl (p q : ascii -> bool) s :
  (forall c, p c = true -> q c = true) -> str_forall p s = true -> str_forall q s = true.
Proof.
  intros Hpq. induction s as [|c s IH]; simpl; [reflexivity|].
  intros [Hc Hs]%andb_true_iff. now rewrite (Hpq _ Hc), IH.
Qed.

Lemma all_digits_forall s : Py.all_digits s = str_forall Py.is_digit s.
Proof. induction s as [|c s IH]; simpl; [reflexivity | now rewrite IH]. Qed.

Lemma numeral_char_facts c :
  numeral_char c = true ->
  differs "M" c = true /\ differs "K" c = true /\ Py.upper_char c = c.
Proof.
  destruct c as [[] [] [] [] [] [] [] []]; intros Hc; try discriminate Hc;
    repeat split; reflexivity.
Qed.

Lemma split_dot_numeral s :
  match Py.split_dot s with
  | (ip, None) => s = ip
  | (ip, Some fp) => s = ip ++ String "." fp
  end.
Proof.
  induction s as [|c s IH]; simpl; [reflexivity|].
  destruct (Ascii.eqb c ".") eqn:Hc.
  - apply Ascii.eqb_eq in Hc. now subst c.
  - destruct (Py.split_dot s) as [ip [fp|]]; simpl; now rewrite IH.
Qed.

(** What [float] reads is made of digits and full stops. *)
Lemma float_numeral s v : Py.float s = Some v -> str_forall numeral_char s = true.
Proof.
  unfold Py.float. pose proof (split_dot_numeral s) as Hs.
  assert (Hd : forall t, str_forall Py.is_digit t = true -> str_forall numeral_char t = true).
  { intro t. apply str_forall_impl. intros c Hc. unfold numeral_char. now rewrite Hc. }
  destruct (Py.split_dot s) as [ip [fp|]]; subst s.
  - destruct (Py.all_digits ip) eqn:Hi; [|discriminate].
    destruct (Py.all_digits fp) eqn:Hf; [|discriminate]. intros _.
    rewrite all_digits_forall in Hi, Hf.
    rewrite str_forall_app. cbn [str_forall]. now rewrite (Hd _ Hi), (Hd _ Hf).
  - destruct (Py.all_digits ip) eqn:Hi; [|discriminate]. intros _.
    rewrite all_digits_forall in Hi. auto.
Qed.

Lemma prefix_differs a old c s : differs a c = true -> String.prefix (String a old) (String c s) = false.
Proof.
  unfold differs. intros Hd. cbn [String.prefix].
  destruct (ascii_dec a c) as [->|]; [|reflexivity].
  now rewrite Ascii.eqb_refl in Hd.
Qed.

(** [replace] leaves alone a string without the first character of [old]. *)
Lemma replace_absent a old new s :
  str_forall (differs a) s = true -> Py.replace (String a old) new s = s.
Proof.
  unfold Py.replace. induction s as [|c s IH]; [reflexivity|].
  cbn [str_forall]. intros [Hc Hs]%andb_true_iff.
  cbn [Py.replace_from]. now rewrite (prefix_differs _ _ _ _ Hc), IH.
Qed.

(** [replace] removes a two-letter unit from the end of such a string. *)
Lemma replace_suffix a b s :
  str_forall (differs a) s = true ->
  Py.replace (String a (String b "")) "" (s ++ String a (String b "")) = s.
Proof.
  unfold Py.replace. induction s as [|c s IH].
  - intros _. cbn. destruct (ascii_dec a a); [|congruence].
    destruct (ascii_dec b b); [reflexivity | congruence].
  - cbn [str_forall]. intros [Hc Hs]%andb_true_iff.
    cbn [String.append Py.replace_from]. now rewrite (prefix_differs _ _ _ _ Hc), IH.
Qed.

Lemma upper_app a b : Py.upper (a ++ b) = Py.upper a ++ Py.upper b.
Proof. induction a as [|c a IH]; simpl; [reflexivity | now rewrite IH]. Qed.

Lemma upper_numeral s : str_forall numeral_char s = true -> Py.upper s = s.
Proof.
  induction s as [|c s IH]; simpl; [reflexivity|].
  intros [Hc Hs]%andb_true_iff.
  destruct (numeral_char_facts c Hc) as (_ & _ & ->). now rewrite IH.
Qed.

Lemma contains_suffix sub s : Py.contains sub (s ++ sub) = true.
Proof.
  induction s as [|c s IH].
  - cbn [String.append]. destruct sub as [|x sub]; [reflexivity|].
    cbn [Py.contains]. assert (String.prefix (String x sub) (String x sub) = true) as ->.
    { clear. generalize (String x sub). intro t. induction t as [|y t IH]; cbn; [reflexivity|].
      destruct (ascii_dec y y); [exact IH | congruence]. }
    reflexivity.
  - cbn [String.append Py.contains]. rewrite IH. apply orb_true_r.
Qed.

Lemma contains_absent a old s :
  str_forall (differs a) s = true -> Py.contains (String a old) s = false.
Proof.
  induction s as [|c s IH]; [reflexivity|].
  cbn [str_forall]. intros [Hc Hs]%andb_true_iff.
  cbn [Py.contains]. now rewrite (prefix_differs _ _ _ _ Hc), IH.
Qed.

End Numerals.

(** ** Rounding to hundredths *)

Section Rounding.

(** [round_half_even] is within one half of its argument. *)
Lemma round_half_even_near (p : Z) (q : positive) :
  let h := Py.round_half_even (p # q) in
  2 * p - Zpos q <= 2 * Zpos q * h <= 2 * p + Zpos q.
Proof.
  cbn zeta. unfold Py.round_half_even. cbn [Qnum Qden].
  pose proof (Z.div_mod p (Zpos q) ltac:(lia)) as Hdm.
  pose proof (Z.mod_pos_bound p (Zpos q) ltac:(lia)) as Hr.
  set (fl := p / Zpos q) in *. set (r := p mod Zpos q) in *.
  destruct (2 * r <? Zpos q) eqn:H1; [apply Z.ltb_lt in H1; nia|].
  apply Z.ltb_ge in H1.
  destruct (Zpos q <? 2 * r) eqn:H2; [apply Z.ltb_lt in H2; nia|].
  apply Z.ltb_ge in H2.
  destruct (Z.even fl); nia.
Qed.

Lemma round_half_even_nonneg (p : Z) (q : positive) :
  0 <= p -> 0 <= Py.round_half_even (p # q).
Proof.
  intros Hp. unfold Py.round_half_even. cbn [Qnum Qden].
  pose proof (Z.div_pos p (Zpos q) Hp ltac:(lia)).
  destruct (_ <? _); [lia|]. destruct (_ <? _); [lia|]. destruct (Z.even _); lia.
Qed.

(** The two decimals of the display are two characters. *)
Lemma two_digits_length (z : Z) : 0 <= z < 100 -> String.length (Py.two_digits z) = 2%nat.
Proof.
  intros Hz.
  assert (Hall : forallb (fun k => Nat.eqb (String.length (Py.two_digits (Z.of_nat k))) 2)
                   (seq 0 100) = true) by (vm_compute; reflexivity).
  rewrite forallb_forall in Hall.
  specialize (Hall (Z.to_nat z)). rewrite Z2Nat.id in Hall by lia.
  apply Nat.eqb_eq, Hall, in_seq. lia.
Qed.

(** [.2f] of a float that is not negative. *)
Lemma format_2f_nonneg (p : Z) (q : positive) :
  0 <= p ->
  let h := Py.round_half_even (Qabs (p # q) * 100) in
  Py.format_2f (p # q) = Py.Z_to_string (h / 100) ++ "." ++ Py.two_digits (h mod 100).
Proof.
  intros Hp h. unfold Py.format_2f. fold h.
  destruct (Qlt_le_dec (p # q) 0) as [Hneg|_]; [|reflexivity].
  unfold Qlt in Hneg. cbn in Hneg. lia.
Qed.

End Rounding.

(** ** The shrink search of image_resize.py

    At a geometry image_resize.py takes the first rung of the quality
    ladder that is not above the interval and looks no further down when
    that rung is below it.  With an encoder whose output does not grow as
    the quality falls, and is never empty, that is again the first
    encoding inside the interval; its geometries start at the size of the
    image itself. *)

Section ImageResizeShrink.
Context `{Imaging}.
Variables (img : Img) (lo hi : Q) (f : PilFormat).
Hypothesis nonempty : forall i o, save i f o <> [].

(** [i] encodes no larger at a lower quality. *)
Definition monotone_on (i : Img) : Prop :=
  forall q q', 0 <= q' <= q -> (len (save i f (q_only q')) <= len (save i f (q_only q)))%Q.

Hypothesis monotone : forall g, above_floor g = true -> monotone_on (resize img g).

Definition in_range_rung (i : Img) (q : Z) : M (option bytes) :=
  b <- do_save i f (q_only q) ;;
  if between lo (len b) hi then ret (Some b) else ret None.

Definition below_max_rung (i : Img) (q : Z) : M (option (bytes * Q)) :=
  b <- do_save i f (q_only q) ;;
  if Qle_bool (len b) hi then ret (Some (b, len b)) else ret None.

Lemma all_below_none i qs bound :
  monotone_on i ->
  (len (save i f (q_only bound)) < lo)%Q ->
  Forall (fun q => 0 <= q <= bound) qs ->
  fst (for_in qs (in_range_rung i)) = Val None.
Proof.
  intros monotone_i Hlow. induction qs as [|q qs IH]; intros Hall; [reflexivity|].
  inversion Hall as [|? ? Hq Hqs]; subst.
  cbn [for_in]. unfold in_range_rung at 1, do_save. cbn [bind].
  assert (between lo (len (save i f (q_only q))) hi = false) as ->.
  { apply not_true_is_false. intros [Hlo _]%between_iff.
    apply (Qlt_not_le _ _ Hlow). eapply Qle_trans; [exact Hlo | now apply monotone_i]. }
  cbn [ret]. specialize (IH Hqs).
  destruct (for_in qs (in_range_rung i)) as [r t]. cbn in IH |- *. exact IH.
Qed.

Lemma truthy_save i o : image_resize.truthy (save i f o) = true.
Proof. pose proof (nonempty i o). now destruct (save i f o). Qed.

(** One geometry: the rung image_resize.py stops at, measured against
    the interval, is the first rung inside the interval. *)
Lemma rung_agree i qs :
  monotone_on i ->
  StronglySorted (fun a b => 0 <= b <= a) qs ->
  fst (for_in qs (in_range_rung i)) =
  match fst (for_in qs (below_max_rung i)) with
  | Val (Some (b, n)) =>
      Val (if (image_resize.truthy b && between lo n hi)%bool then Some b else None)
  | Val None => Val None
  | Raise e => Raise e
  | OutOfFuel => OutOfFuel
  end.
Proof.
  intros monotone_i. induction qs as [|q qs IH]; intros Hs; [reflexivity|].
  apply StronglySorted_inv in Hs as [Hs Hle].
  cbn [for_in]. unfold in_range_rung at 1, below_max_rung at 1, do_save. cbn [bind].
  unfold between at 1.
  destruct (Qle_bool (len (save i f (q_only q))) hi) eqn:Hhi;
    destruct (Qle_bool lo (len (save i f (q_only q)))) eqn:Hlo;
    cbn [andb bind ret fst app].
  - rewrite truthy_save. unfold between. now rewrite Hlo, Hhi.
  - rewrite truthy_save. unfold between. rewrite Hlo, Hhi. cbn [andb].
    assert (Hlow : (len (save i f (q_only q)) < lo)%Q).
    { apply Qnot_le_lt. intros Hc. apply Qle_bool_iff in Hc. congruence. }
    pose proof (all_below_none i qs q monotone_i Hlow Hle) as Hn.
    destruct (for_in qs (in_range_rung i)) as [r t]. cbn in Hn |- *. exact Hn.
  - specialize (IH Hs).
    destruct (for_in qs (in_range_rung i)) as [r t].
    destruct (for_in qs (below_max_rung i)) as [r' t']. cbn in IH |- *. exact IH.
  - specialize (IH Hs).
    destruct (for_in qs (in_range_rung i)) as [r t].
    destruct (for_in qs (below_max_rung i)) as [r' t']. cbn in IH |- *. exact IH.
Qed.

Lemma quality_descent_sorted :
  StronglySorted (fun a b => 0 <= b <= a) Spec.quality_descent.
Proof.
  unfold Spec.quality_descent.
  repeat (apply SSorted_cons; [|repeat (apply Forall_cons; [lia|]); apply Forall_nil]).
  apply SSorted_nil.
Qed.

Lemma image_resize_shrink_rounds fuel g l :
  orbit fuel above_floor next_geometry g = Some l ->
  fst (while fuel above_floor
         (fun '(width, height) =>
            r <- image_resize.try_save_image img f hi width height ;;
            let next := (Py.int (inject_Z width * 0.9), Py.int (inject_Z height * 0.9)) in
            match r with
            | Some (result, size) =>
                if (image_resize.truthy result && between lo size hi)%bool
                then ret (Return result)
                else ret (Next next)
            | None => ret (Next next)
            end) g)
  = fst (for_in l (fun g => for_in Spec.quality_descent (in_range_rung (resize img g)))).
Proof.
  revert g l. induction fuel as [|fuel IH]; cbn [while orbit]; intros g l Ho.
  - destruct (above_floor g); [discriminate|]. now injection Ho as <-.
  - destruct (above_floor g) eqn:Hg; [|now injection Ho as <-].
    destruct (orbit fuel above_floor next_geometry (next_geometry g)) as [l'|] eqn:Hl;
      [|discriminate].
    injection Ho as <-. specialize (IH _ _ Hl). cbn [for_in].
    pose proof (rung_agree (resize img g) Spec.quality_descent (monotone g Hg)
                  quality_descent_sorted) as Hr.
    destruct g as [w h].
    rewrite try_save_image_ladder.
    change (for_in Spec.quality_descent _) with
      (for_in Spec.quality_descent (below_max_rung (resize img (w, h)))) at 1.
    destruct (for_in Spec.quality_descent (below_max_rung (resize img (w, h))))
      as [[[[b n]|]| |] t];
      destruct (for_in Spec.quality_descent (in_range_rung (resize img (w, h))))
        as [r' t']; cbn [fst] in Hr; subst r'; cbn [bind ret fst].
    + destruct (image_resize.truthy b && between lo n hi)%bool; cbn [bind ret fst];
        [reflexivity|].
      change (Py.int (inject_Z w * 0.9), Py.int (inject_Z h * 0.9))
        with (next_geometry (w, h)).
      destruct (while fuel above_floor _ (next_geometry (w, h))) as [r1 t1].
      destruct (for_in l' _) as [r2 t2]. cbn [fst] in IH |- *. exact IH.
    + change (Py.int (inject_Z w * 0.9), Py.int (inject_Z h * 0.9))
        with (next_geometry (w, h)).
      destruct (while fuel above_floor _ (next_geometry (w, h))) as [r1 t1].
      destruct (for_in l' _) as [r2 t2]. cbn [fst] in IH |- *. exact IH.
    + reflexivity.
    + reflexivity.
Qed.

(** The result of the shrink loop of image_resize.py is the first
    encoding inside the interval over its geometries: the size of the image
    and its shrink steps, the last one left out. *)
Lemma image_resize_shrink_first_in_range :
  exists geoms,
    orbit (Z.to_nat (fst (size img))) above_floor next_geometry (size img) = Some geoms /\
    fst (image_resize.shrink_block img lo hi f)
    = fst (Spec.first_in_range lo hi f (Spec.shrink_attempts img geoms)).
Proof.
  destruct (shrink_orbit (Z.to_nat (fst (size img))) (size img)) as (l & Hl & _); [lia|].
  exists l. split; [exact Hl|].
  unfold image_resize.shrink_block. destruct (size img) as [w h]. cbn [fst] in Hl.
  etransitivity; [exact (image_resize_shrink_rounds _ _ _ Hl)|].
  unfold Spec.first_in_range, Spec.shrink_attempts. rewrite for_in_flat_map.
  f_equal; apply for_in_ext; intro g; now rewrite for_in_map.
Qed.

End ImageResizeShrink.

(** The toy encoder is such an encoder. *)
Lemma toy_shrink_first_in_range (img : Toy.picture) lo hi f :
  exists geoms,
    orbit (Z.to_nat (Toy.pw img)) above_floor next_geometry (Toy.pw img, Toy.ph img)
      = Some geoms /\
    fst (image_resize.shrink_block (H := Toy.imaging) img lo hi f)
    = fst (Spec.first_in_range (H := Toy.imaging) lo hi f
             (Spec.shrink_attempts (H := Toy.imaging) img geoms)).
Proof.
  apply (image_resize_shrink_first_in_range (H := Toy.imaging) img lo hi f).
  - intros i o. discriminate.
  - intros [w h] [Hw Hh]%andb_true_iff q q' Hq.
    apply Z.ltb_lt in Hw, Hh.
    unfold len. rewrite <- Zle_Qle. apply inj_le.
    cbn. unfold Toy.zeros. rewrite !repeat_length.
    assert (Ha : 0 < w * h) by nia.
    apply le_n_S, Z2Nat.inj_le.
    + apply Z.div_pos; [apply Z.mul_nonneg_nonneg|]; lia.
    + apply Z.div_pos; [apply Z.mul_nonneg_nonneg|]; lia.
    + apply Z.div_le_mono; [lia|]. apply Z.mul_le_mono_nonneg_l; lia.
Qed.

(** * The claims *)

(** ** The size-fitting engine *)


(** C2 (fails on for_both.py): for a file whose size is already inside the
    interval, image_resize.py encodes the image once, at quality 95, and
    returns that encoding; for_both.py has no such case and reports failure
    without a single encoder call. *)
Theorem inside_interval_reencode_or_failure :
  forall `{Imaging} data lo hi fmt f opened,
    dict_get SUPPORTED_FORMATS fmt = Some f ->
    Image_open data = Some opened ->
    (lo <= len data)%Q -> (len data <= hi)%Q ->
    let img := Spec.prepared f opened in
    image_resize.process_image data (lo, hi) fmt
      = (Val (Some (save img f (q_only 95))), [(img, f, q_only 95)]) /\
    for_both.process_image data (lo, hi) fmt = (Val None, []).
Proof.
  intros ? data lo hi fmt f opened Hf Ho Hlo Hhi img. split.
  - now apply image_resize_inside.
  - now apply process_image_inside with (f := f) (opened := opened).
Qed.

(** On the toy encoder: a file of 390 bytes and the interval [380, 400]. *)
Lemma inside_interval_reencode_or_failure_witness :
  let data := Toy.file 20 20 390 in
  ((380 <= len data)%Q /\ (len data <= 400)%Q) /\
  image_resize.process_image (H := Toy.imaging) data (380, 400)%Q "PNG"
    = (Val (Some (Toy.encode (Toy.mkPic 200 200) PNG (q_only 95))),
       [(Toy.mkPic 200 200, PNG, q_only 95)]) /\
  for_both.process_image (H := Toy.imaging) data (380, 400)%Q "PNG" = (Val None, []).
Proof.
  assert (Hlo : (380 <= len (Toy.file 20 20 390))%Q) by (vm_compute; discriminate).
  assert (Hhi : (len (Toy.file 20 20 390) <= 400)%Q) by (vm_compute; discriminate).
  split; [split; assumption|].
  exact (inside_interval_reencode_or_failure (H := Toy.imaging)
           (Toy.file 20 20 390) 380 400 "PNG" PNG (Toy.mkPic 200 200)
           eq_refl eq_refl Hlo Hhi).
Defined.

(** C3: below the interval, for_both.py runs the growth search first.  The
    search is the one of the specification: the metadata, scaling, padding,
    quality and tiling ladders in that order, the first candidate whose
    encoding at quality 100 reaches the lower bound.  The upper bound plays
    no part in the search.  The one candidate it accepts is then encoded at
    quality 95; inside the interval that encoding is returned and no shrink
    call is made, otherwise (or without a candidate) no further technique is
    tried and the shrink block runs after the growth calls. *)
Theorem growth_search_first_and_in_order :
  forall `{Imaging} data lo hi fmt f opened,
    dict_get SUPPORTED_FORMATS fmt = Some f ->
    Image_open data = Some opened ->
    (len data < lo)%Q ->
    let img := Spec.prepared f opened in
    let shrink := for_both.shrink_block img lo hi f in
    for_both.increase_image_size img lo f
      = Spec.first_verified lo f (Spec.growth_techniques img) /\
    exists r tg,
      for_both.increase_image_size img lo f = (Val r, tg) /\
      for_both.process_image data (lo, hi) fmt =
      match r with
      | Some c =>
          let b := save c f (q_only 95) in
          if between lo (len b) hi
          then (Val (Some b), tg ++ [(c, f, q_only 95)])
          else (fst shrink, tg ++ (c, f, q_only 95) :: snd shrink)
      | None => (fst shrink, tg ++ snd shrink)
      end%list.
Proof.
  intros ? data lo hi fmt f opened Hf Ho Hlt img shrink.
  split; [apply increase_image_size_spec|].
  destruct (total_increase_image_size img lo f) as (r & tg & Hi).
  exists r, tg. split; [exact Hi|].
  destruct (process_image_below data lo hi fmt f opened Hf Ho Hlt) as (g & t & Hg & ->).
  fold img in Hg. rewrite (grow_block_cases _ _ hi _ _ _ Hi) in Hg.
  destruct r as [c|].
  - cbn zeta in Hg |- *.
    destruct (between lo (len (save c f (q_only 95))) hi); injection Hg as <- <-.
    + reflexivity.
    + fold img shrink. now rewrite <- app_assoc.
  - injection Hg as <- <-. reflexivity.
Qed.

(** On the toy encoder: a file of 100 bytes below [380, 500].  The first
    rung of the metadata ladder reaches 380 bytes, the candidate is
    verified, and its encoding at quality 95 is returned: three encoder
    calls, none of them of the shrink search. *)
Lemma growth_search_first_and_in_order_witness :
  let data := Toy.file 20 20 100 in
  let img := Toy.mkPic 200 200 in
  (len data < 380)%Q /\
  for_both.process_image (H := Toy.imaging) data (380, 500)%Q "PNG"
  = (Val (Some (Toy.encode img PNG (q_only 95))),
     [ (img, PNG, mkOpts 100 (Some (Py.repeat_str "x" 1024)) None);
       (img, PNG, q_only 100);
       (img, PNG, q_only 95) ]).
Proof.
  assert (Hlt : (len (Toy.file 20 20 100) < 380)%Q) by reflexivity.
  split; [exact Hlt|].
  destruct (growth_search_first_and_in_order (H := Toy.imaging)
              (Toy.file 20 20 100) 380 500 "PNG" PNG (Toy.mkPic 200 200)
              eq_refl eq_refl Hlt) as (_ & r & tg & Hi & Hp).
  rewrite Hp. clear Hp.
  assert (Hc : for_both.increase_image_size (H := Toy.imaging) (Toy.mkPic 200 200) 380 PNG
               = (Val (Some (Toy.mkPic 200 200)),
                  [ (Toy.mkPic 200 200, PNG, mkOpts 100 (Some (Py.repeat_str "x" 1024)) None);
                    (Toy.mkPic 200 200, PNG, q_only 100) ]))
    by (vm_compute; reflexivity).
  change (Spec.prepared (H := Toy.imaging) PNG (Toy.mkPic 200 200))
    with (Toy.mkPic 200 200) in Hi.
  rewrite Hc in Hi. injection Hi as <- <-. reflexivity.
Defined.

(** The interval is not part of the search.  On the toy encoder, for a file
    of 100 bytes and the interval [390, 600]: the scaling technique has a
    verified candidate, 240 by 240, whose encoding at quality 95 has 548
    bytes, inside the interval.  The search accepts the metadata candidate
    before it, the picture itself, whose encoding at quality 95 has 381
    bytes, below the interval; no other technique is tried, the shrink
    search runs, and [process_image] returns [None] after 136 encoder
    calls. *)
Lemma growth_search_interval_counterexample :
  let data := Toy.file 20 20 100 in
  let img := Toy.mkPic 200 200 in
  let scaled := Toy.mkPic 240 240 in
  (len data < 390)%Q /\
  Image_open (Imaging := Toy.imaging) data = Some img /\
  fst (for_both._increase_by_scaling (H := Toy.imaging) img 390 PNG) = Val (Some scaled) /\
  fst (for_both._verify_size (H := Toy.imaging) scaled 390 PNG) = Val true /\
  len (Toy.encode scaled PNG (q_only 95)) = 548%Q /\
  between 390 (len (Toy.encode scaled PNG (q_only 95))) 600 = true /\
  fst (for_both.increase_image_size (H := Toy.imaging) img 390 PNG) = Val (Some img) /\
  len (Toy.encode img PNG (q_only 95)) = 381%Q /\
  between 390 (len (Toy.encode img PNG (q_only 95))) 600 = false /\
  fst (for_both.process_image (H := Toy.imaging) data (390, 600)%Q "PNG") = Val None /\
  List.length (snd (for_both.process_image (H := Toy.imaging) data (390, 600)%Q "PNG"))
  = 136%nat.
Proof. vm_compute. repeat split. Qed.

(** C4: the shrink search of for_both.py.  Its geometries are the shrink
    steps of the specification from the size of the image (times 0.9 while
    both dimensions are above 100px), at each of them the qualities 95, 90,
    ..., 5 are tried, and the first encoding whose length lies in the
    interval is returned.  It is all of [process_image] above the interval,
    and what follows the growth calls when the growth block did not return.
    [try_save_image] of image_resize.py walks the same quality ladder. *)
Theorem shrink_search_geometry_and_quality_ladder :
  forall `{Imaging} data lo hi fmt f opened,
    dict_get SUPPORTED_FORMATS fmt = Some f ->
    Image_open data = Some opened ->
    (lo < hi)%Q ->
    let img := Spec.prepared f opened in
    exists geoms,
      Spec.shrink_steps (size img) geoms /\
      let search := Spec.first_in_range lo hi f (Spec.shrink_attempts img geoms) in
      for_both.shrink_block img lo hi f = search /\
      ((hi < len data)%Q -> for_both.process_image data (lo, hi) fmt = search) /\
      ((len data < lo)%Q ->
       forall tg, for_both.grow_block img lo hi f = (Val None, tg) ->
                  for_both.process_image data (lo, hi) fmt
                    = (fst search, (tg ++ snd search)%list)) /\
      (forall w h,
         image_resize.try_save_image img f hi w h =
         for_in Spec.quality_descent (fun q =>
           b <- do_save (resize img (w, h)) f (q_only q) ;;
           if Qle_bool (len b) hi then ret (Some (b, len b)) else ret None)).
Proof.
  intros ? data lo hi fmt f opened Hf Ho Hlh img.
  destruct (shrink_block_spec img lo hi f) as (geoms & Hsteps & Heq).
  exists geoms. split; [exact Hsteps|]. cbn zeta. split; [|split; [|split]].
  - exact Heq.
  - intros Hgt. rewrite <- Heq. now apply process_image_above.
  - intros Hlt tg Hg.
    destruct (process_image_below data lo hi fmt f opened Hf Ho Hlt) as (r & t & Hg' & ->).
    fold img in Hg'. rewrite Hg in Hg'. injection Hg' as <- <-. fold img. now rewrite Heq.
  - intros w h. apply try_save_image_ladder.
Qed.

(** On the toy encoder: a file of 1000 bytes above [300, 350]. *)
Lemma shrink_search_geometry_and_quality_ladder_witness :
  let data := Toy.file 20 20 1000 in
  let img := Toy.mkPic 200 200 in
  (300 < 350)%Q /\ (350 < len data)%Q /\
  exists geoms,
    Spec.shrink_steps (200, 200) geoms /\
    for_both.process_image (H := Toy.imaging) data (300, 350)%Q "JPG"
      = Spec.first_in_range (H := Toy.imaging) 300 350 JPEG
          (Spec.shrink_attempts (H := Toy.imaging) img geoms).
Proof.
  assert (Hlh : (300 < 350)%Q) by reflexivity.
  assert (Hgt : (350 < len (Toy.file 20 20 1000))%Q) by reflexivity.
  split; [exact Hlh|]. split; [exact Hgt|].
  destruct (shrink_search_geometry_and_quality_ladder (H := Toy.imaging)
              (Toy.file 20 20 1000) 300 350 "JPG" JPEG (Toy.mkPic 200 200)
              eq_refl eq_refl Hlh) as (geoms & Hsteps & _ & Habove & _).
  exists geoms. split; [exact Hsteps | exact (Habove Hgt)].
Defined.

(** C10: the two engines differ.  Their scale factors are the powers of
    1.2 up to 4 and the powers of 1.1 up to 2.  On the toy encoder they
    return different results for a file inside the interval (for_both.py
    fails, image_resize.py re-encodes it), for a file below it (the first
    candidate of for_both.py misses the interval at quality 95 and nothing
    smaller fits, image_resize.py scales by 1.1 and fits) and for a file
    above it (for_both.py starts the shrink search at 0.9 times the size,
    image_resize.py at the size itself). *)
Theorem engines_differ :
  let P := for_both.process_image (H := Toy.imaging) in
  let Q := image_resize.process_image (H := Toy.imaging) in
  (orbit for_both.loop_fuel (fun scale_factor => Qle_bool scale_factor 4)
     (fun scale_factor => (scale_factor * 1.2)%Q) 1.2%Q
   = Some [1.2; 1.44; 1.728; 2.0736; 2.48832; 2.985984; 3.5831808]%Q /\
   orbit image_resize.loop_fuel
     (fun scale_factor => Qle_bool scale_factor image_resize.MAX_SCALING_FACTOR)
     (fun scale_factor => (scale_factor * 1.1)%Q) 1.1%Q
   = Some [1.1; 1.21; 1.331; 1.4641; 1.61051; 1.771561; 1.9487171]%Q) /\
  (fst (P (Toy.file 20 20 390) (380, 400)%Q "PNG") = Val None /\
   fst (Q (Toy.file 20 20 390) (380, 400)%Q "PNG")
     = Val (Some (Toy.encode (Toy.mkPic 200 200) PNG (q_only 95)))) /\
  (fst (P (Toy.file 20 20 100) (390, 500)%Q "PNG") = Val None /\
   fst (Q (Toy.file 20 20 100) (390, 500)%Q "PNG")
     = Val (Some (Toy.encode (Toy.mkPic 220 220) PNG (q_only 95)))) /\
  (fst (P (Toy.file 20 20 1000) (300, 350)%Q "JPG")
     = Val (Some (Toy.encode (Toy.mkPic 180 180) JPEG (q_only 95))) /\
   fst (Q (Toy.file 20 20 1000) (300, 350)%Q "JPG")
     = Val (Some (Toy.encode (Toy.mkPic 200 200) JPEG (q_only 85)))) /\
  exists data target fmt, fst (P data target fmt) <> fst (Q data target fmt).
Proof.
  cbn zeta.
  split; [split; vm_compute; reflexivity|].
  split; [split; vm_compute; reflexivity|].
  split; [split; vm_compute; reflexivity|].
  split; [split; vm_compute; reflexivity|].
  exists (Toy.file 20 20 390), (380, 400)%Q, "PNG". vm_compute. discriminate.
Qed.

(** ** The conversation *)

(** C5 (fails on the code): the pattern is matched without regard to case,
    so "2mb-3mb" passes it with the groups "2mb" and "3mb"; but
    [convert_to_bytes] removes the units with a [replace] that does regard
    case, and [float] raises on "2mb".  The user is answered with the
    text of that [ValueError], where "2MB" would have given 2097152. *)
Theorem lowercase_units_raise :
  Re.re_match true size_pattern "2mb-3mb" = Some ["2mb"; "3mb"] /\
  convert_to_bytes "2mb" = Raise (ValueError "could not convert string to float: '2mb'") /\
  convert_to_bytes "2MB" = Val (inject_Z 2097152) /\
  forall tr engine user_states user chat,
    snd (handle_conversion_request tr engine user_states (mkMessage user chat "2mb-3mb JPG"))
    = send tr (reply_to (cross_mark ++ " could not convert string to float: '2mb'")).
Proof.
  split; [reflexivity|]. split; [reflexivity|]. split; [reflexivity|].
  intros tr engine user_states user chat.
  unfold handle_conversion_request. cbn [snd].
  change (conversion_request tr engine user_states _)
    with (raise (E := Reply) (A := unit)
            (ValueError "could not convert string to float: '2mb'")).
  now rewrite try_except_raise.
Qed.

(** C6: the pattern accepts "2MB-3MB" and "500KB-1MB" and rejects "2-3MB";
    it accepts "3MB-2MB" too, which the comparison of the two sizes then
    refuses with a message of its own, as it refuses two equal sizes. *)
Theorem size_range_pattern_and_order_check :
  Re.re_match true size_pattern "2MB-3MB" = Some ["2MB"; "3MB"] /\
  Re.re_match true size_pattern "500KB-1MB" = Some ["500KB"; "1MB"] /\
  Re.re_match true size_pattern "2-3MB" = None /\
  Re.re_match true size_pattern "3MB-2MB" = Some ["3MB"; "2MB"] /\
  forall tr engine user_states user chat,
    snd (handle_conversion_request tr engine user_states (mkMessage user chat "2-3MB JPG"))
    = send tr (reply_to (cross_mark
                         ++ " Invalid size range format. Examples: 2MB-3MB, 500KB-1MB")) /\
    snd (handle_conversion_request tr engine user_states (mkMessage user chat "3MB-2MB JPG"))
    = send tr (reply_to (cross_mark ++ " Minimum size must be less than maximum size.")) /\
    snd (handle_conversion_request tr engine user_states (mkMessage user chat "2MB-2MB JPG"))
    = send tr (reply_to (cross_mark ++ " Minimum size must be less than maximum size.")).
Proof.
  repeat (split; [reflexivity|]).
  intros tr engine user_states user chat.
  unfold handle_conversion_request. cbn [snd]. split; [|split].
  - change (conversion_request tr engine user_states _)
      with (raise (E := Reply) (A := unit)
              (ValueError "Invalid size range format. Examples: 2MB-3MB, 500KB-1MB")).
    now rewrite try_except_raise.
  - change (conversion_request tr engine user_states _)
      with (raise (E := Reply) (A := unit)
              (ValueError "Minimum size must be less than maximum size.")).
    now rewrite try_except_raise.
  - change (conversion_request tr engine user_states _)
      with (raise (E := Reply) (A := unit)
              (ValueError "Minimum size must be less than maximum size.")).
    now rewrite try_except_raise.
Qed.

(** C7: whatever the text, the transport and the engine do, the entry of
    the user is gone when [handle_conversion_request] is over, and the
    entries of the other users are as they were.  So after a photo has been
    recorded and one text handled, the filter of the handler is false for
    this user: the next text goes to [handle_invalid]. *)
Theorem tracker_entry_cleared :
  forall tr engine (user_states : gmap Z UserState) user chat file info text1 text2,
    get_file tr file = Some info ->
    let recorded := fst (handle_photo tr user_states user file) in
    let consumed :=
      fst (handle_conversion_request tr engine recorded (mkMessage user chat text1)) in
    awaiting_spec recorded user = true /\
    consumed !! user = None /\
    (forall other, other <> user -> consumed !! other = user_states !! other) /\
    awaiting_spec consumed user = false /\
    on_text tr engine consumed (mkMessage user chat text2) = (consumed, handle_invalid tr).
Proof.
  intros tr engine user_states user chat file [path fsize] text1 text2 Hfile recorded consumed.
  assert (Hrec : recorded = <[user := mkState file "size_format" (inject_Z fsize / 1024)]> user_states).
  { unfold recorded, handle_photo. now rewrite Hfile. }
  assert (Hcons : consumed = delete user recorded).
  { unfold consumed, handle_conversion_request. cbn [fst from_user_id].
    now rewrite Hrec, lookup_insert_eq. }
  assert (Hgone : consumed !! user = None) by (rewrite Hcons; apply lookup_delete_eq).
  assert (Hfilter : awaiting_spec consumed user = false)
    by (unfold awaiting_spec; now rewrite Hgone).
  split; [|split; [|split; [|split]]].
  - unfold awaiting_spec. now rewrite Hrec, lookup_insert_eq.
  - exact Hgone.
  - intros other Hne. rewrite Hcons, Hrec.
    rewrite lookup_delete_ne by congruence. now rewrite lookup_insert_ne by congruence.
  - exact Hfilter.
  - unfold on_text. cbn [from_user_id]. now rewrite Hfilter.
Qed.

(** On the toy transport: user 7 sends a photo, then a command. *)
Lemma tracker_entry_cleared_witness :
  let recorded := fst (handle_photo toy_transport (∅ : gmap Z UserState) 7 "photo-1") in
  let consumed :=
    fst (handle_conversion_request toy_transport toy_for_both
           recorded (mkMessage 7 1 "300KB-350KB JPG")) in
  get_file toy_transport "photo-1" = Some ("photos/1.jpg", 390) /\
  awaiting_spec recorded 7 = true /\
  consumed !! 7 = None /\
  awaiting_spec consumed 7 = false.
Proof.
  split; [reflexivity|].
  destruct (tracker_entry_cleared toy_transport toy_for_both
              ∅ 7 1 "photo-1" ("photos/1.jpg", 390) "300KB-350KB JPG" "again" eq_refl)
    as (Hrec & Hgone & _ & Hfilter & _).
  split; [exact Hrec|]. split; [exact Hgone | exact Hfilter].
Defined.

(** The paths of one exchange on the toy transport, after a photo of user
    7 was recorded: a conversion that succeeds, a search that finds
    nothing, a text that is no command, a download that fails, an engine
    that raises.  The entry is gone after each. *)
Example conversation_paths :
  let recorded := fst (handle_photo toy_transport (∅ : gmap Z UserState) 7 "photo-1") in
  let gone (r : gmap Z UserState * Eff Reply unit) := bool_decide (fst r !! 7 = None) in
  let request := mkMessage 7 1 "0.3KB-0.4KB png" in
  let done := on_text toy_transport toy_image_resize recorded request in
  let nothing := on_text toy_transport toy_for_both recorded request in
  let invalid := on_text toy_transport toy_for_both recorded (mkMessage 7 1 "hello") in
  let offline := on_text offline_transport toy_for_both recorded request in
  let raising :=
    on_text toy_transport (fun _ _ _ => Raise (OtherError "cannot identify image file"))
      recorded request in
  (kinds (snd done) = ["reply_to"; "delete_message"; "send_document"] /\ gone done = true) /\
  (kinds (snd nothing) = ["reply_to"; "edit_message_text"] /\ gone nothing = true) /\
  (snd invalid
   = (Val tt, [reply_to (cross_mark ++ " Invalid format. Please use: <size_range> <format>")])
   /\ gone invalid = true) /\
  (snd offline
   = (Val tt, [reply_to (gear ++ " Processing your image...");
               reply_to (cross_mark ++ " An error occurred. Please try again.")])
   /\ gone offline = true) /\
  (snd raising
   = (Val tt, [reply_to (gear ++ " Processing your image...");
               edit_message_text (cross_mark
                                  ++ " Error processing image: cannot identify image file")])
   /\ gone raising = true).
Proof. vm_compute. repeat split. Qed.

(** The entry goes on every path: with no entry to begin with, with a
    transport that fails, with an engine that raises. *)
Lemma handle_conversion_request_clears tr engine (user_states : gmap Z UserState) message :
  fst (handle_conversion_request tr engine user_states message) !! from_user_id message = None.
Proof.
  unfold handle_conversion_request. cbn [fst].
  destruct (user_states !! from_user_id message) eqn:He; [apply lookup_delete_eq | exact He].
Qed.

(** ** Sizes and their display *)

(** C8: "2MB" is 2*1024*1024 bytes and "500KB" is 500*1024; for every
    numeral [s] that [float] reads, [s] followed by MB is its value times
    1024*1024 and [s] followed by KB its value times 1024. *)
Theorem convert_to_bytes_upper_units :
  convert_to_bytes "2MB" = Val (inject_Z (2 * 1024 * 1024)) /\
  convert_to_bytes "500KB" = Val (inject_Z (500 * 1024)) /\
  forall s v,
    Py.float s = Some v ->
    convert_to_bytes (s ++ "MB") = Val (v * 1024 * 1024)%Q /\
    convert_to_bytes (s ++ "KB") = Val (v * 1024)%Q.
Proof.
  split; [reflexivity|]. split; [reflexivity|].
  intros s v Hv. pose proof (float_numeral s v Hv) as Hn.
  assert (HM : str_forall (differs "M") s = true).
  { revert Hn. apply str_forall_impl. intros c Hc. apply (numeral_char_facts c Hc). }
  assert (HK : str_forall (differs "K") s = true).
  { revert Hn. apply str_forall_impl. intros c Hc. apply (numeral_char_facts c Hc). }
  unfold convert_to_bytes. split.
  - rewrite (replace_suffix "M" "B" s HM), (replace_absent "K" "B" "" s HK), Hv.
    now rewrite upper_app, contains_suffix.
  - rewrite (replace_absent "M" "B" "" (s ++ "KB"))
      by (rewrite str_forall_app, HM; reflexivity).
    rewrite (replace_suffix "K" "B" s HK), Hv.
    rewrite upper_app, (upper_numeral s Hn). change (Py.upper "KB") with "KB".
    rewrite (contains_absent "M" "B" (s ++ "KB"))
      by (rewrite str_forall_app, HM; reflexivity).
    now rewrite contains_suffix.
Qed.

(** The numeral 2.5. *)
Lemma convert_to_bytes_upper_units_witness :
  Py.float "2.5" = Some 2.5%Q /\
  convert_to_bytes "2.5MB" = Val (2.5 * 1024 * 1024)%Q /\
  convert_to_bytes "2.5KB" = Val (2.5 * 1024)%Q.
Proof.
  split; [reflexivity|].
  exact (proj2 (proj2 convert_to_bytes_upper_units) "2.5" 2.5%Q eq_refl).
Defined.

(** C9: 1536*1024 bytes are shown as "1.50MB" and 500*1024 bytes as
    "500.00KB".  A byte count whose KB value is at least 1024 is shown in
    MB, any other in KB; what is shown is a whole number, a full stop and
    two digits, [h] hundredths in all, within half a hundredth of the
    value. *)
Theorem display_size_rounds_and_selects_unit :
  get_size_in_appropriate_unit (inject_Z (1536 * 1024)) = "1.50MB" /\
  get_size_in_appropriate_unit (inject_Z (500 * 1024)) = "500.00KB" /\
  forall n : Z,
    0 <= n ->
    let kb_size := (inject_Z n / 1024)%Q in
    let in_mb := Qle_bool 1024 kb_size in
    let shown := if in_mb then (kb_size / 1024)%Q else kb_size in
    (in_mb = true <-> 1024 * 1024 <= n) /\
    exists h : Z,
      0 <= h /\
      (shown - (1 # 200) <= inject_Z h / 100 <= shown + (1 # 200))%Q /\
      String.length (Py.two_digits (h mod 100)) = 2%nat /\
      get_size_in_appropriate_unit (inject_Z n)
      = Py.Z_to_string (h / 100) ++ "." ++ Py.two_digits (h mod 100)
        ++ (if in_mb then "MB" else "KB").
Proof.
  split; [reflexivity|]. split; [reflexivity|].
  intros n Hn kb_size in_mb shown.
  assert (Hunit : in_mb = true <-> 1024 * 1024 <= n).
  { unfold in_mb, kb_size. rewrite Qle_bool_iff. unfold Qle. cbn. lia. }
  split; [exact Hunit|].
  unfold get_size_in_appropriate_unit. fold kb_size. fold in_mb.
  destruct in_mb.
  - change (kb_size / 1024)%Q with (n * 1 * 1 # 1024 * 1024) in *.
    pose proof (format_2f_nonneg (n * 1 * 1) (1024 * 1024) ltac:(lia)) as Hf.
    cbn zeta in Hf. rewrite Hf.
    set (h := Py.round_half_even (Qabs (n * 1 * 1 # 1024 * 1024) * 100)).
    exists h.
    pose proof (round_half_even_near (Z.abs (n * 1 * 1) * 100) (1024 * 1024 * 1)) as Hh.
    pose proof (round_half_even_nonneg (Z.abs (n * 1 * 1) * 100) (1024 * 1024 * 1)
                  ltac:(lia)) as H0.
    change (Py.round_half_even (Z.abs (n * 1 * 1) * 100 # 1024 * 1024 * 1)) with h in Hh, H0.
    cbn zeta in Hh. split; [exact H0|]. split; [|split].
    + unfold shown, Qle, Qminus, Qplus, Qopp, Qdiv, Qmult, Qinv, inject_Z.
      cbn [Qnum Qden]. cbn. lia.
    + apply two_digits_length. apply Z.mod_pos_bound. lia.
    + now rewrite !str_app_assoc.
  - change kb_size with (n * 1 # 1024) in *.
    pose proof (format_2f_nonneg (n * 1) 1024 ltac:(lia)) as Hf.
    cbn zeta in Hf. rewrite Hf.
    set (h := Py.round_half_even (Qabs (n * 1 # 1024) * 100)).
    exists h.
    pose proof (round_half_even_near (Z.abs (n * 1) * 100) (1024 * 1)) as Hh.
    pose proof (round_half_even_nonneg (Z.abs (n * 1) * 100) (1024 * 1) ltac:(lia)) as H0.
    change (Py.round_half_even (Z.abs (n * 1) * 100 # 1024 * 1)) with h in Hh, H0.
    cbn zeta in Hh. split; [exact H0|]. split; [|split].
    + unfold shown, Qle, Qminus, Qplus, Qopp, Qdiv, Qmult, Qinv, inject_Z.
      cbn [Qnum Qden]. cbn. lia.
    + apply two_digits_length. apply Z.mod_pos_bound. lia.
    + now rewrite !str_app_assoc.
Qed.

(** A thousand bytes. *)
Lemma display_size_rounds_and_selects_unit_witness :
  0 <= 1000 /\
  exists h : Z,
    0 <= h /\
    ((1000 # 1024) - (1 # 200) <= inject_Z h / 100 <= (1000 # 1024) + (1 # 200))%Q /\
    get_size_in_appropriate_unit (inject_Z 1000)
    = Py.Z_to_string (h / 100) ++ "." ++ Py.two_digits (h mod 100) ++ "KB".
Proof.
  assert (Hn : 0 <= 1000) by lia.
  split; [exact Hn|].
  destruct (proj2 (proj2 display_size_rounds_and_selects_unit) 1000 Hn)
    as (_ & h & H0 & Hnear & _ & Hshow).
  exists h. split; [exact H0|]. split; [exact Hnear | exact Hshow].
Defined.

(** * Further properties of the code *)

(** ** More on loops *)

Section MoreLoops.
Context {E : Type}.

(** What a [for] loop returns was returned by a round, and the calls of
    that round close the log. *)
Lemma for_in_inv_last {A R : Type} (xs : list A) (body : A -> Eff E (option R)) r t :
  for_in xs body = (Val (Some r), t) ->
  exists x t0 tx, In x xs /\ body x = (Val (Some r), tx) /\ t = (t0 ++ tx)%list.
Proof.
  revert t. induction xs as [|x xs IH]; simpl; intros t Hf; [discriminate|].
  apply bind_val_inv in Hf as ([v|] & t1 & t2 & Hx & Hk & ->).
  - injection Hk as -> <-. exists x, [], t1. rewrite app_nil_r. auto.
  - destruct (IH _ Hk) as (y & t0 & ty & Hy & Hby & ->).
    exists y, (t1 ++ t0)%list, ty. rewrite <- app_assoc. auto.
Qed.

(** The log of a [for] loop is no longer than its rounds allow. *)
Lemma for_in_log_length {A R : Type} (xs : list A) (body : A -> Eff E (option R)) (n : nat) :
  (forall x, (List.length (snd (body x)) <= n)%nat) ->
  (List.length (snd (for_in xs body)) <= List.length xs * n)%nat.
Proof.
  intros Hb. induction xs as [|x xs IH]; simpl; [lia|].
  specialize (Hb x). destruct (body x) as [[[v|]| |] t]; cbn [snd] in Hb; cbn [bind ret snd].
  - rewrite app_nil_r. lia.
  - destruct (for_in xs body) as [r t']. cbn [snd] in IH |- *.
    rewrite length_app. lia.
  - lia.
  - lia.
Qed.

End MoreLoops.

(** ** The engine of for_both.py *)

Section ForBothMore.
Context `{Imaging}.
Import for_both.

Lemma grow_block_last img lo hi f b t :
  grow_block img lo hi f = (Val (Some b), t) ->
  between lo (len b) hi = true /\
  exists c t0, b = save c f (q_only 95) /\ t = (t0 ++ [(c, f, q_only 95)])%list.
Proof.
  destruct (total_increase_image_size img lo f) as (r & tg & Hi).
  rewrite (grow_block_cases _ _ _ _ _ _ Hi).
  destruct r as [c|]; [|discriminate]. cbn zeta.
  destruct (between lo (len (save c f (q_only 95))) hi) eqn:Hb; [|discriminate].
  intros [= <- <-]. eauto.
Qed.

Lemma shrink_block_last img lo hi f b t :
  shrink_block img lo hi f = (Val (Some b), t) ->
  between lo (len b) hi = true /\
  exists i q t0,
    In q Spec.quality_descent /\ b = save i f (q_only q)
    /\ t = (t0 ++ [(i, f, q_only q)])%list.
Proof.
  destruct (shrink_block_spec img lo hi f) as (geoms & _ & ->).
  intros Hs. apply for_in_inv_last in Hs as ([i q] & t0 & tx & Hin & Hx & ->).
  unfold do_save in Hx. cbn [bind] in Hx.
  destruct (between lo (len (save i f (q_only q))) hi) eqn:Hb; [|discriminate].
  injection Hx as <- <-. split; [exact Hb|].
  exists i, q, t0. repeat split. unfold Spec.shrink_attempts in Hin.
  apply in_flat_map in Hin as (g & _ & Hin). apply in_map_iff in Hin as (q' & [= _ <-] & Hq).
  exact Hq.
Qed.

End ForBothMore.

(** X1: what [process_image] of for_both.py returns has a length inside
    the interval, and is the output of the last encoder call it made: an
    encoding in the format asked for, with no keyword but [quality], at one
    of the qualities 95, 90, ..., 5. *)
Theorem for_both_returns_last_measured_encoding :
  forall `{Imaging} data lo hi fmt b t,
    for_both.process_image data (lo, hi) fmt = (Val (Some b), t) ->
    (lo <= len b <= hi)%Q /\
    exists f i q t0,
      dict_get SUPPORTED_FORMATS fmt = Some f /\
      In q Spec.quality_descent /\
      b = save i f (q_only q) /\
      t = (t0 ++ [(i, f, q_only q)])%list.
Proof.
  intros ? data lo hi fmt b t.
  destruct (dict_get SUPPORTED_FORMATS fmt) as [f|] eqn:Hf;
    [|unfold for_both.process_image; rewrite Hf; discriminate].
  destruct (Image_open data) as [opened|] eqn:Ho;
    [|unfold for_both.process_image; rewrite Hf, Ho; discriminate].
  rewrite (process_image_opened _ _ _ _ _ _ Hf Ho). intros Hp.
  apply bind_val_inv in Hp as (grown & t1 & t2 & Hg & Hk & ->).
  destruct grown as [b'|].
  - injection Hk as -> <-. rewrite app_nil_r.
    destruct (Qlt_bool (len data) lo); [|discriminate].
    apply grow_block_last in Hg as (Hb & c & t0 & -> & ->).
    split; [now apply between_iff|].
    exists f, c, 95, t0. repeat split. cbn. auto.
  - apply bind_val_inv in Hk as (shrunk & t3 & t4 & Hs & Hk & ->).
    destruct shrunk as [b'|]; [|discriminate]. injection Hk as -> <-.
    rewrite app_nil_r.
    destruct (Qlt_bool hi (len data) || Qlt_bool (len data) lo)%bool; [|discriminate].
    apply shrink_block_last in Hs as (Hb & i & q & t0 & Hq & -> & ->).
    split; [now apply between_iff|].
    exists f, i, q, (t1 ++ t0)%list. repeat split; [exact Hq|]. now rewrite app_assoc.
Qed.

(** On the toy encoder: a file of 1000 bytes above [300, 350]. *)
Lemma for_both_returns_last_measured_encoding_witness :
  exists b t,
    for_both.process_image (H := Toy.imaging) (Toy.file 20 20 1000) (300, 350)%Q "JPG"
      = (Val (Some b), t) /\
    (300 <= len b <= 350)%Q /\
    exists f i q t0,
      dict_get SUPPORTED_FORMATS "JPG" = Some f /\
      In q Spec.quality_descent /\
      b = save (Imaging := Toy.imaging) i f (q_only q) /\
      t = (t0 ++ [(i, f, q_only q)])%list.
Proof.
  eexists _, _. split; [vm_compute; reflexivity|].
  eapply (for_both_returns_last_measured_encoding (H := Toy.imaging)
            (Toy.file 20 20 1000) 300 350 "JPG").
  vm_compute. reflexivity.
Defined.

Section GrowthMore.
Context `{Imaging}.
Import for_both.

Definition reaches (target : Q) (f : PilFormat) (a : Spec.attempt) : bool :=
  Qle_bool target (len (save (Spec.enc a) f (Spec.opts a))).

Lemma try_ladder_some target f l c t :
  Spec.try_ladder target f l = (Val (Some c), t) ->
  exists a, In a l /\ reaches target f a = true /\ c = Spec.cand a.
Proof.
  intros Ht. apply for_in_inv in Ht as (a & ta & Hin & Ha).
  unfold do_save in Ha. cbn [bind] in Ha. exists a. unfold reaches.
  destruct (Qle_bool target (len _)); [|discriminate]. injection Ha as <- _. auto.
Qed.

(** A ladder hands back the candidate of its first rung that reaches the
    target, and nothing when no rung does. *)
Lemma try_ladder_result target f l :
  fst (Spec.try_ladder target f l)
  = Val (option_map Spec.cand (List.find (reaches target f) l)).
Proof.
  unfold Spec.try_ladder. induction l as [|a l IH]; [reflexivity|].
  cbn [for_in List.find]. unfold do_save at 1. cbn [bind]. unfold reaches at 1.
  destruct (Qle_bool target (len _)); cbn [ret bind fst option_map]; [reflexivity|].
  destruct (for_in l _) as [r t]. cbn [fst] in IH |- *. exact IH.
Qed.

Lemma first_verified_inv target f ls c t :
  Spec.first_verified target f ls = (Val (Some c), t) ->
  Qle_bool target (len (save c f (q_only 100))) = true /\
  exists l a t0,
    In l ls /\ In a l /\ reaches target f a = true /\ c = Spec.cand a /\
    t = (t0 ++ [(c, f, q_only 100)])%list.
Proof.
  revert t. induction ls as [|l ls IH]; cbn [Spec.first_verified]; intros t Hv; [discriminate|].
  apply bind_val_inv in Hv as (r & t1 & t2 & Hl & Hk & ->).
  destruct r as [i|].
  - unfold do_save in Hk. cbn [bind] in Hk.
    destruct (Qle_bool target (len (save i f (q_only 100)))) eqn:Hq.
    + injection Hk as -> <-.
      apply try_ladder_some in Hl as (a & Hin & Hr & ->).
      split; [exact Hq|]. exists l, a, t1. repeat split; auto. now left.
    + destruct (Spec.first_verified target f ls) as [r' t'] eqn:Hrest.
      injection Hk as -> <-.
      destruct (IH _ eq_refl) as (Hq' & l' & a & t0 & Hl' & Ha & Hr & -> & ->).
      split; [exact Hq'|]. exists l', a, (t1 ++ (i, f, q_only 100) :: t0)%list.
      repeat split; auto; [now right|]. now rewrite <- app_assoc.
  - destruct (IH _ Hk) as (Hq' & l' & a & t0 & Hl' & Ha & Hr & -> & ->).
    split; [exact Hq'|]. exists l', a, (t1 ++ t0)%list.
    repeat split; auto; [now right|]. now rewrite <- app_assoc.
Qed.

Lemma try_ladder_log target f l :
  (List.length (snd (Spec.try_ladder target f l)) <= List.length l)%nat.
Proof.
  unfold Spec.try_ladder.
  pose proof (for_in_log_length l
                (fun a => b <- do_save (Spec.enc a) f (Spec.opts a) ;;
                          if Qle_bool target (len b) then ret (Some (Spec.cand a))
                          else ret None) 1) as Hl.
  rewrite Nat.mul_1_r in Hl. apply Hl. intro a. unfold do_save. cbn [bind].
  destruct (Qle_bool target (len _)); cbn; lia.
Qed.

Lemma first_verified_log target f ls :
  (List.length (snd (Spec.first_verified target f ls))
   <= list_sum (map (fun l => S (List.length l)) ls))%nat.
Proof.
  induction ls as [|l ls IH]; cbn [Spec.first_verified map list_sum]; [cbn; lia|].
  unfold list_sum in *. cbn [fold_right].
  pose proof (try_ladder_log target f l) as Hl.
  destruct (Spec.try_ladder target f l) as [[[i|]| |] t1]; cbn [snd] in Hl; cbn [bind snd].
  - unfold do_save. cbn [bind].
    destruct (Qle_bool target (len _)); cbn [ret snd].
    + rewrite ?length_app. cbn [List.length]. lia.
    + destruct (Spec.first_verified target f ls) as [r t']. cbn [snd] in IH |- *.
      rewrite ?length_app. cbn [List.length app]. rewrite ?length_app. cbn [List.length]. lia.
  - destruct (Spec.first_verified target f ls) as [r t']. cbn [snd] in IH |- *.
    rewrite length_app. lia.
  - lia.
  - lia.
Qed.

End GrowthMore.

(** X3: a candidate of the growth search of for_both.py has been verified:
    its encoding at quality 100 reaches the target, that verification is
    the last call of the search, and the candidate comes from a rung of one
    of the five ladders whose own encoding reached the target. *)
Theorem growth_candidate_is_verified :
  forall `{Imaging} img target f c t,
    for_both.increase_image_size img target f = (Val (Some c), t) ->
    (target <= len (save c f (q_only 100)))%Q /\
    (exists l a,
       In l (Spec.growth_techniques img) /\ In a l /\
       (target <= len (save (Spec.enc a) f (Spec.opts a)))%Q /\ c = Spec.cand a) /\
    exists t0, t = (t0 ++ [(c, f, q_only 100)])%list.
Proof.
  intros ? img target f c t. rewrite increase_image_size_spec. intros Hv.
  apply first_verified_inv in Hv as (Hq & l & a & t0 & Hl & Ha & Hr & -> & ->).
  split; [now apply Qle_bool_iff|]. split; [|eauto].
  exists l, a. repeat split; auto. now apply Qle_bool_iff.
Qed.

(** On the toy encoder: a picture of 200 by 200 and the target 380. *)
Lemma growth_candidate_is_verified_witness :
  let img := Toy.mkPic 200 200 in
  exists t,
    for_both.increase_image_size (H := Toy.imaging) img 380 PNG = (Val (Some img), t) /\
    (380 <= len (Toy.encode img PNG (q_only 100)))%Q /\
    exists t0, t = (t0 ++ [(img, PNG, q_only 100)])%list.
Proof.
  eexists. split; [vm_compute; reflexivity|].
  destruct (growth_candidate_is_verified (H := Toy.imaging) (Toy.mkPic 200 200) 380 PNG
              (Toy.mkPic 200 200) _ ltac:(vm_compute; reflexivity)) as (Hq & _ & Ht).
  split; [exact Hq | exact Ht].
Defined.

Section GrowthTechniques.
Context `{Imaging}.
Import for_both.

Lemma find_same_candidate (p : Spec.attempt -> bool) (l : list Spec.attempt) (img : Img) :
  Forall (fun a => Spec.cand a = img) l ->
  option_map Spec.cand (List.find p l) = if existsb p l then Some img else None.
Proof.
  induction l as [|a l IH]; intros Hall; [reflexivity|].
  inversion Hall as [|? ? Ha Hl]; subst. cbn [List.find existsb].
  destruct (p a); cbn [orb option_map]; [reflexivity | now apply IH].
Qed.

Lemma existsb_of_map {A B : Type} (p : B -> bool) (g : A -> B) (l : list A) :
  existsb p (map g l) = existsb (fun x => p (g x)) l.
Proof. induction l as [|x l IH]; cbn; [reflexivity | now rewrite IH]. Qed.

End GrowthTechniques.

(** X4: the metadata and the quality technique of for_both.py hand back
    the very image they were given, or nothing.  The metadata technique
    succeeds exactly when one of its ten encodings with a comment of
    1024 * 2^i letters reaches the target; the comment is not part of what
    it returns. *)
Theorem metadata_and_quality_return_the_image :
  forall `{Imaging} img target f,
    fst (for_both._add_metadata img target f)
    = Val (if existsb
                (fun i => Qle_bool target
                            (len (save img f
                                    (mkOpts 100 (Some (Py.repeat_str "x" (1024 * 2 ^ i))) None))))
                (seq 0 10)
           then Some img else None) /\
    fst (for_both._increase_by_quality img target f)
    = Val (if existsb
                (fun q => Qle_bool target (len (save img f (mkOpts q None (Some false)))))
                [95; 96; 97; 98; 99; 100]
           then Some img else None).
Proof.
  intros ? img target f. split.
  - rewrite add_metadata_ladder, try_ladder_result.
    rewrite (find_same_candidate _ _ img).
    + unfold Spec.metadata_ladder. now rewrite existsb_of_map.
    + unfold Spec.metadata_ladder. apply Forall_map, Forall_forall. reflexivity.
  - rewrite increase_by_quality_ladder, try_ladder_result.
    rewrite (find_same_candidate _ _ img).
    + unfold Spec.quality_ladder. now rewrite existsb_of_map.
    + unfold Spec.quality_ladder. apply Forall_map, Forall_forall. reflexivity.
Qed.

Section CallBounds.
Context `{Imaging}.
Import for_both.

Lemma increase_image_size_log img target f :
  (List.length (snd (increase_image_size img target f)) <= 70)%nat.
Proof.
  rewrite increase_image_size_spec.
  etransitivity; [apply first_verified_log|].
  unfold Spec.growth_techniques, Spec.metadata_ladder, Spec.scaling_ladder,
    Spec.padding_ladder, Spec.quality_ladder, Spec.tiling_ladder.
  vm_compute. lia.
Qed.

Lemma grow_block_log img lo hi f :
  (List.length (snd (grow_block img lo hi f)) <= 71)%nat.
Proof.
  pose proof (increase_image_size_log img lo f) as Hl.
  destruct (total_increase_image_size img lo f) as (r & tg & Hi).
  rewrite Hi in Hl. cbn [snd] in Hl.
  rewrite (grow_block_cases _ _ hi _ _ _ Hi).
  destruct r as [c|]; cbn [snd]; [|lia]. rewrite length_app. cbn [List.length]. lia.
Qed.

(** The shrink steps number at most the pixels of width above 100. *)
Lemma shrink_steps_length g l :
  Spec.shrink_steps g l -> (List.length l <= Z.to_nat (fst g - 100))%nat.
Proof.
  induction 1 as [g Hstop | g l Hw Hh Hsteps IH]; cbn [List.length]; [lia|].
  cbn [Spec.shrunk fst] in IH.
  assert (fst g * 9 / 10 < fst g) by (apply Z.div_lt_upper_bound; lia). lia.
Qed.

Lemma shrink_attempts_length img geoms :
  List.length (Spec.shrink_attempts img geoms) = (19 * List.length geoms)%nat.
Proof.
  unfold Spec.shrink_attempts. induction geoms as [|g geoms IH]; [reflexivity|].
  cbn [flat_map]. rewrite length_app, IH, length_map. cbn [List.length Spec.quality_descent]. lia.
Qed.

Lemma shrink_block_log img lo hi f :
  (List.length (snd (shrink_block img lo hi f)) <= 19 * Z.to_nat (fst (size img) - 100))%nat.
Proof.
  destruct (shrink_block_spec img lo hi f) as (geoms & Hsteps & ->).
  apply shrink_steps_length in Hsteps.
  pose proof (for_in_log_length (Spec.shrink_attempts img geoms)
                (fun '(i, q) => b <- do_save i f (q_only q) ;;
                                if between lo (len b) hi then ret (Some b) else ret None) 1) as Hl.
  unfold Spec.first_in_range. rewrite shrink_attempts_length in Hl.
  etransitivity; [apply Hl|lia].
  intros [i q]. unfold do_save. cbn [bind]. destruct (between lo _ hi); cbn; lia.
Qed.

End CallBounds.

(** X5: the encoder calls of for_both.py are bounded.  The growth search
    makes at most 70 of them (65 rungs and a verification per technique),
    and one [process_image] at most 71 plus 19 for every pixel of width
    above 100. *)
Theorem for_both_encoder_calls_bounded :
  forall `{Imaging} data lo hi fmt f opened,
    dict_get SUPPORTED_FORMATS fmt = Some f ->
    Image_open data = Some opened ->
    let img := Spec.prepared f opened in
    (List.length (snd (for_both.increase_image_size img lo f)) <= 70)%nat /\
    (List.length (snd (for_both.process_image data (lo, hi) fmt))
     <= 71 + 19 * Z.to_nat (fst (size img) - 100))%nat.
Proof.
  intros ? data lo hi fmt f opened Hf Ho img.
  split; [apply increase_image_size_log|].
  rewrite (process_image_opened _ _ _ _ _ _ Hf Ho). fold img.
  pose proof (grow_block_log img lo hi f) as Hg.
  pose proof (shrink_block_log img lo hi f) as Hs.
  destruct (Qlt_bool (len data) lo).
  - rewrite orb_true_r.
    destruct (for_both.grow_block img lo hi f) as [[[b|]| |] tg];
      cbn [snd] in Hg; cbn [bind ret snd]; rewrite ?app_nil_r; try lia.
    destruct (for_both.shrink_block img lo hi f) as [[[b|]| |] ts];
      cbn [snd] in Hs; cbn [bind ret snd]; rewrite ?app_nil_r, ?length_app; lia.
  - cbn [bind ret snd app]. rewrite orb_false_r.
    destruct (Qlt_bool hi (len data)).
    + destruct (for_both.shrink_block img lo hi f) as [[[b|]| |] ts];
        cbn [snd] in Hs; cbn [bind ret snd]; rewrite ?app_nil_r; lia.
    + cbn. lia.
Qed.

(** On the toy encoder: a file of 100 bytes below [500, 600], a picture
    200 pixels wide. *)
Lemma for_both_encoder_calls_bounded_witness :
  (List.length (snd (for_both.increase_image_size (H := Toy.imaging)
                       (Toy.mkPic 200 200) 500 WEBP)) <= 70)%nat /\
  (List.length (snd (for_both.process_image (H := Toy.imaging)
                       (Toy.file 20 20 100) (500, 600)%Q "WEBP"))
   <= 71 + 19 * Z.to_nat (200 - 100))%nat.
Proof.
  exact (for_both_encoder_calls_bounded (H := Toy.imaging) (Toy.file 20 20 100) 500 600
           "WEBP" WEBP (Toy.mkPic 200 200) eq_refl eq_refl).
Defined.

Section SmallPictures.
Context `{Imaging}.

Lemma above_floor_false g : ~ (100 < fst g /\ 100 < snd g) -> above_floor g = false.
Proof.
  destruct g as [w h]. cbn. intros Hn.
  apply not_true_is_false. intros [Hw Hh]%andb_true_iff.
  apply Z.ltb_lt in Hw, Hh. auto.
Qed.

Lemma while_not_entered {S R : Type} fuel (cond : S -> bool)
    (body : S -> M (step S R)) s :
  cond s = false -> while fuel cond body s = (Val None, []).
Proof. intros Hc. destruct fuel; cbn [while]; now rewrite Hc. Qed.

Lemma for_both_shrink_small img lo hi f :
  ~ (100 < fst (size img) /\ 100 < snd (size img)) ->
  for_both.shrink_block img lo hi f = (Val None, []).
Proof.
  intros Hs. unfold for_both.shrink_block.
  apply while_not_entered. now apply (above_floor_false (size img)).
Qed.

Lemma image_resize_shrink_small img lo hi f :
  ~ (100 < fst (size img) /\ 100 < snd (size img)) ->
  image_resize.shrink_block img lo hi f = (Val None, []).
Proof.
  intros Hs. unfold image_resize.shrink_block.
  pose proof (above_floor_false (size img) Hs) as Hc.
  destruct (size img) as [w h]. now apply while_not_entered.
Qed.

End SmallPictures.

(** X6: a picture that is not above 100 pixels in both dimensions is never
    shrunk.  When its file is larger than the interval allows, both engines
    give up at once: they return [None] without a single encoder call. *)
Theorem small_pictures_are_not_shrunk :
  forall `{Imaging} data lo hi fmt f opened,
    dict_get SUPPORTED_FORMATS fmt = Some f ->
    Image_open data = Some opened ->
    (lo < hi)%Q -> (hi < len data)%Q ->
    let img := Spec.prepared f opened in
    ~ (100 < fst (size img) /\ 100 < snd (size img)) ->
    for_both.process_image data (lo, hi) fmt = (Val None, []) /\
    image_resize.process_image data (lo, hi) fmt = (Val None, []).
Proof.
  intros ? data lo hi fmt f opened Hf Ho Hlh Hgt img Hsmall.
  assert (Hlo : Qlt_bool (len data) lo = false)
    by (apply Qlt_bool_false, Qlt_le_weak; eapply Qlt_trans; eassumption).
  assert (Hhi : Qlt_bool hi (len data) = true) by now apply Qlt_bool_iff.
  split.
  - rewrite (process_image_above _ _ _ _ _ _ Hf Ho Hlh Hgt).
    now apply for_both_shrink_small.
  - unfold image_resize.process_image. rewrite Hf, Ho, Hlo, Hhi.
    cbn [orb]. fold (Spec.prepared f opened). fold img.
    rewrite (image_resize_shrink_small img lo hi f Hsmall). cbn [bind ret app].
    unfold between. unfold Qlt_bool in Hhi. apply negb_true_iff in Hhi.
    now rewrite Hhi, andb_false_r.
Qed.

(** On the toy encoder: a picture of 100 by 300 in a file of 1000 bytes,
    above [300, 350]. *)
Lemma small_pictures_are_not_shrunk_witness :
  let data := Toy.file 10 30 1000 in
  (350 < len data)%Q /\
  Toy.decode data = Some (Toy.mkPic 100 300) /\
  for_both.process_image (H := Toy.imaging) data (300, 350)%Q "JPG" = (Val None, []) /\
  image_resize.process_image (H := Toy.imaging) data (300, 350)%Q "JPG" = (Val None, []).
Proof.
  assert (Hlh : (300 < 350)%Q) by reflexivity.
  assert (Hgt : (350 < len (Toy.file 10 30 1000))%Q) by reflexivity.
  split; [exact Hgt|]. split; [reflexivity|].
  apply (small_pictures_are_not_shrunk (H := Toy.imaging) (Toy.file 10 30 1000) 300 350
           "JPG" JPEG (Toy.mkPic 100 300) eq_refl eq_refl Hlh Hgt).
  cbn. lia.
Defined.

(** ** The engine of image_resize.py *)

(** X7: what [process_image] of image_resize.py returns either has a
    length inside the interval, or is the re-encoding at quality 95 of a
    file whose own length was inside it.  In both cases it is an encoding
    in the format asked for. *)
Theorem image_resize_returns_measured_or_reencoded :
  forall `{Imaging} data lo hi fmt b t,
    image_resize.process_image data (lo, hi) fmt = (Val (Some b), t) ->
    exists f opened,
      dict_get SUPPORTED_FORMATS fmt = Some f /\
      Image_open data = Some opened /\
      (exists i o, b = save i f o) /\
      ((lo <= len b <= hi)%Q \/
       ((lo <= len data <= hi)%Q /\ b = save (Spec.prepared f opened) f (q_only 95))).
Proof.
  intros ? data lo hi fmt b t. unfold image_resize.process_image.
  destruct (dict_get SUPPORTED_FORMATS fmt) as [f|] eqn:Hf; [|discriminate].
  destruct (Image_open data) as [opened|] eqn:Ho; [|discriminate].
  fold (Spec.prepared f opened). intros Hp. exists f, opened. split; [reflexivity|].
  split; [reflexivity|].
  apply bind_val_inv in Hp as (grown & t1 & t2 & Hg & Hk & ->).
  destruct grown as [b'|].
  - injection Hk as -> _.
    destruct (Qlt_bool (len data) lo); [|discriminate].
    apply image_resize_grow_sound in Hg as (Hb & Hsave).
    split; [exact Hsave|]. left. now apply between_iff.
  - apply bind_val_inv in Hk as (shrunk & t3 & t4 & Hs & Hk & ->).
    destruct shrunk as [b'|].
    + injection Hk as -> _.
      destruct (Qlt_bool hi (len data) || Qlt_bool (len data) lo)%bool; [|discriminate].
      apply image_resize_shrink_sound in Hs as (Hb & Hsave).
      split; [exact Hsave|]. left. now apply between_iff.
    + destruct (between lo (len data) hi) eqn:Hin; [|discriminate].
      unfold do_save in Hk. cbn [bind ret] in Hk. injection Hk as <- _.
      split; [eauto|]. right. split; [now apply between_iff | reflexivity].
Qed.

(** On the toy encoder: a file of 1000 bytes above [300, 350]. *)
Lemma image_resize_returns_measured_or_reencoded_witness :
  exists b t,
    image_resize.process_image (H := Toy.imaging) (Toy.file 20 20 1000) (300, 350)%Q "JPG"
      = (Val (Some b), t) /\
    ((300 <= len b <= 350)%Q \/
     ((300 <= len (Toy.file 20 20 1000) <= 350)%Q
      /\ b = Toy.encode (Toy.mkPic 200 200) JPEG (q_only 95))).
Proof.
  eexists _, _. split; [vm_compute; reflexivity|].
  destruct (image_resize_returns_measured_or_reencoded (H := Toy.imaging)
              (Toy.file 20 20 1000) 300 350 "JPG" _ _ ltac:(vm_compute; reflexivity))
    as (f & opened & Hf & Ho & _ & Hcases).
  injection Hf as <-. injection Ho as <-. exact Hcases.
Defined.

(** X8: the shrink loop of image_resize.py stops each geometry at the first
    rung of the quality ladder that is not above the interval.  With an
    encoder that never returns an empty file and whose output does not grow
    as the quality falls, its result is the first encoding inside the
    interval over the geometries of the loop (the size of the picture, then
    times 0.9 while both dimensions are above 100) and the qualities 95,
    90, ..., 5. *)
Theorem image_resize_shrink_is_first_in_range :
  forall `{Imaging} img lo hi f,
    (forall i o, save i f o <> []) ->
    (forall g q q',
       above_floor g = true -> 0 <= q' <= q ->
       (len (save (resize img g) f (q_only q')) <= len (save (resize img g) f (q_only q)))%Q) ->
    exists geoms,
      orbit (Z.to_nat (fst (size img))) above_floor next_geometry (size img) = Some geoms /\
      fst (image_resize.shrink_block img lo hi f)
      = fst (Spec.first_in_range lo hi f (Spec.shrink_attempts img geoms)).
Proof.
  intros ? img lo hi f Hne Hmono.
  apply image_resize_shrink_first_in_range; [exact Hne|].
  intros g Hg q q' Hq. now apply Hmono.
Qed.

(** On the toy encoder: a picture of 200 by 200, the interval [300, 350]. *)
Lemma image_resize_shrink_is_first_in_range_witness :
  let img := Toy.mkPic 200 200 in
  fst (image_resize.shrink_block (H := Toy.imaging) img 300 350 JPEG)
  = fst (Spec.first_in_range (H := Toy.imaging) 300 350 JPEG
           (Spec.shrink_attempts (H := Toy.imaging) img
              [(200, 200); (180, 180); (162, 162); (145, 145); (130, 130); (117, 117);
               (105, 105)])).
Proof.
  destruct (image_resize_shrink_is_first_in_range (H := Toy.imaging)
              (Toy.mkPic 200 200) 300 350 JPEG) as (geoms & Hgeoms & Heq).
  - intros i o. discriminate.
  - intros [w h] q q' [Hw Hh]%andb_true_iff Hq.
    apply Z.ltb_lt in Hw, Hh.
    unfold len. rewrite <- Zle_Qle. apply inj_le.
    cbn. unfold Toy.zeros. rewrite !repeat_length.
    assert (Ha : 0 < w * h) by nia.
    apply le_n_S, Z2Nat.inj_le.
    + apply Z.div_pos; [apply Z.mul_nonneg_nonneg|]; lia.
    + apply Z.div_pos; [apply Z.mul_nonneg_nonneg|]; lia.
    + apply Z.div_le_mono; [lia|]. apply Z.mul_le_mono_nonneg_l; lia.
  - vm_compute in Hgeoms. injection Hgeoms as <-. exact Heq.
Defined.

Section GrowthRounds.
Context `{Imaging}.
Variables (img : Img) (lo hi : Q) (f : PilFormat).

(** The loop of [grow_block] stops at the first scale of its orbit whose
    encoding is inside or above the interval. *)
Lemma growth_rounds fuel (s0 : Q) (l : list Q) :
  let enc s := save (Spec.scaled img s) f (q_only 95) in
  let rung s := (Spec.scaled img s, f, q_only 95) in
  let stops s := (between lo (len (enc s)) hi || Qlt_bool hi (len (enc s)))%bool in
  orbit fuel (fun scale_factor => Qle_bool scale_factor image_resize.MAX_SCALING_FACTOR)
    (fun scale_factor => (scale_factor * 1.1)%Q) s0 = Some l ->
  l <> [] ->
  exists before s after,
    l = (before ++ s :: after)%list /\
    Forall (fun s' => stops s' = false) before /\
    (after <> [] -> stops s = true) /\
    while fuel (fun scale_factor => Qle_bool scale_factor image_resize.MAX_SCALING_FACTOR)
      (fun scale_factor =>
         b <- do_save (Spec.scaled img scale_factor) f (q_only 95) ;;
         if between lo (len b) hi then ret (Return b)
         else if Qlt_bool hi (len b) then ret Break
         else ret (Next (scale_factor * 1.1)%Q))
      s0
    = (Val (if between lo (len (enc s)) hi then Some (enc s) else None),
       map rung (before ++ [s])%list).
Proof.
  intros enc rung stops.
  set (body := fun scale_factor : Q =>
         b <- do_save (Spec.scaled img scale_factor) f (q_only 95) ;;
         if between lo (len b) hi then ret (Return (S := Q) b)
         else if Qlt_bool hi (len b) then ret Break
         else ret (Next (scale_factor * 1.1)%Q)).
  assert (Hbody : forall s,
             body s = (Val (if between lo (len (enc s)) hi then Return (enc s)
                            else if Qlt_bool hi (len (enc s)) then Break
                            else Next (s * 1.1)%Q), [rung s])).
  { intro s. unfold body, do_save. cbn [bind]. fold (enc s). fold (rung s).
    destruct (between lo (len (enc s)) hi); [reflexivity|].
    now destruct (Qlt_bool hi (len (enc s))). }
  clearbody body. revert s0 l.
  induction fuel as [|fuel IH]; intros s0 l; cbn [orbit while].
  - destruct (Qle_bool s0 image_resize.MAX_SCALING_FACTOR); [discriminate|].
    intros [= <-] Hne. now destruct Hne.
  - destruct (Qle_bool s0 image_resize.MAX_SCALING_FACTOR);
      [|intros [= <-] Hne; now destruct Hne].
    destruct (orbit fuel _ _ (s0 * 1.1)%Q) as [l'|] eqn:Hl; [|discriminate].
    intros [= <-] _. rewrite Hbody.
    destruct (between lo (len (enc s0)) hi) eqn:Hin.
    + exists [], s0, l'. split; [reflexivity|]. split; [constructor|].
      split; [intros _; unfold stops; now rewrite Hin|]. now rewrite Hin.
    + destruct (Qlt_bool hi (len (enc s0))) eqn:Hover.
      * exists [], s0, l'. split; [reflexivity|]. split; [constructor|].
        split; [intros _; unfold stops; now rewrite Hin, Hover|]. now rewrite Hin.
      * cbn [bind]. destruct l' as [|s1 l'].
        -- exists [], s0, []. split; [reflexivity|]. split; [constructor|].
           split; [intros Hne; now destruct Hne|]. rewrite Hin.
           assert (Hend : Qle_bool (s0 * 1.1) image_resize.MAX_SCALING_FACTOR = false).
           { destruct fuel; cbn [orbit] in Hl;
               destruct (Qle_bool (s0 * 1.1) image_resize.MAX_SCALING_FACTOR);
               try reflexivity; try discriminate Hl.
             destruct (orbit fuel _ _ _); discriminate Hl. }
           destruct fuel; cbn [while]; rewrite Hend; reflexivity.
        -- destruct (IH (s0 * 1.1)%Q (s1 :: l') Hl)
             as (before & s & after & Hsplit & Hall & Hlast & Hrun); [discriminate|].
           exists (s0 :: before), s, after. split; [cbn [app]; now rewrite Hsplit|].
           split; [constructor; [unfold stops; now rewrite Hin, Hover | exact Hall]|].
           split; [exact Hlast|].
           rewrite Hrun. reflexivity.
Qed.

End GrowthRounds.

(** X9: the growth loop of image_resize.py encodes at quality 95 only, the
    picture scaled by 1.1, 1.1^2, ..., 1.1^7 in that order, and stops at the
    first scale whose encoding is not below the interval.  The scales it
    tried are [before ++ [s]], an initial part of the seven: none of the
    encodings at [before] was inside or above the interval, the one at [s]
    was, unless [s] is the seventh scale.  It returns the encoding at [s]
    when that lies inside the interval and nothing otherwise: after an
    encoding above the interval it tries no larger scale. *)
Theorem image_resize_growth_log :
  forall `{Imaging} img lo hi f,
    let enc s := save (Spec.scaled img s) f (q_only 95) in
    let rung s := (Spec.scaled img s, f, q_only 95) in
    let stops s := (between lo (len (enc s)) hi || Qlt_bool hi (len (enc s)))%bool in
    exists before s after,
      map (fun k => Qpower 1.1 (Z.of_nat k)) (seq 1 7) = (before ++ s :: after)%list /\
      Forall (fun s' => stops s' = false) before /\
      (after <> [] -> stops s = true) /\
      image_resize.grow_block img lo hi f
      = (Val (if between lo (len (enc s)) hi then Some (enc s) else None),
         map rung (before ++ [s])%list).
Proof.
  intros ? img lo hi f enc rung stops.
  destruct (growth_rounds img lo hi f image_resize.loop_fuel 1.1
              (map (fun k => Qpower 1.1 (Z.of_nat k)) (seq 1 7))
              orbit_growth_factors) as (before & s & after & Hsplit & Hall & Hlast & Hrun);
    [discriminate|].
  exists before, s, after. split; [exact Hsplit|]. split; [exact Hall|].
  split; [exact Hlast|].
  etransitivity; [|exact Hrun].
  unfold image_resize.grow_block, Spec.scaled.
  now destruct (size img) as [w h].
Qed.

(** On the toy encoder, for the interval [470, 480]: the encoding at scale
    1.1 has 460 bytes, below the interval, and the one at 1.21 is above it;
    the loop makes these two calls and no third. *)
Example image_resize_growth_stops_at_second_scale :
  image_resize.grow_block (H := Toy.imaging) (Toy.mkPic 200 200) 470 480 PNG
  = (Val None, [(Toy.mkPic 220 220, PNG, q_only 95); (Toy.mkPic 242 242, PNG, q_only 95)]).
Proof. vm_compute. reflexivity. Qed.

(** ** Sizes in the command *)

Section UnitsMore.

Lemma replace_app_absent a old new s u :
  str_forall (differs a) s = true ->
  Py.replace (String a old) new (s ++ u) = s ++ Py.replace (String a old) new u.
Proof.
  unfold Py.replace. induction s as [|c s IH]; [reflexivity|].
  cbn [str_forall]. intros [Hc Hs]%andb_true_iff.
  cbn [String.append Py.replace_from]. now rewrite (prefix_differs _ _ _ _ Hc), IH.
Qed.

Lemma float_not_numeral s : str_forall numeral_char s = false -> Py.float s = None.
Proof.
  intros Hs. destruct (Py.float s) as [v|] eqn:Hv; [|reflexivity].
  apply float_numeral in Hv. congruence.
Qed.

Lemma numeral_differs s :
  str_forall numeral_char s = true ->
  str_forall (differs "M") s = true /\ str_forall (differs "K") s = true.
Proof.
  intros Hn. split; revert Hn; apply str_forall_impl; intros c Hc;
    apply (numeral_char_facts c Hc).
Qed.

End UnitsMore.

(** X10: a numeral without a unit is a number of bytes: [convert_to_bytes]
    returns the value [float] reads. *)
Theorem convert_to_bytes_without_unit :
  forall s v, Py.float s = Some v -> convert_to_bytes s = Val v.
Proof.
  intros s v Hv. pose proof (float_numeral s v Hv) as Hn.
  destruct (numeral_differs s Hn) as [HM HK].
  unfold convert_to_bytes.
  rewrite (replace_absent "M" "B" "" s HM), (replace_absent "K" "B" "" s HK), Hv.
  rewrite (upper_numeral s Hn).
  now rewrite (contains_absent "M" "B" s HM), (contains_absent "K" "B" s HK).
Qed.

Lemma convert_to_bytes_without_unit_witness :
  Py.float "750" = Some (inject_Z 750) /\ convert_to_bytes "750" = Val (inject_Z 750).
Proof.
  split; [reflexivity|].
  exact (convert_to_bytes_without_unit "750" (inject_Z 750) eq_refl).
Defined.

(** X11: a unit that is not spelled in capitals makes [convert_to_bytes]
    raise, for every numeral: the unit is left in the string that [float]
    is given, and the [ValueError] names that string. *)
Theorem convert_to_bytes_other_spellings_raise :
  forall s v unit,
    Py.float s = Some v ->
    In unit ["mb"; "Mb"; "mB"; "kb"; "Kb"; "kB"] ->
    convert_to_bytes (s ++ unit)
    = Raise (ValueError ("could not convert string to float: '" ++ (s ++ unit) ++ "'")).
Proof.
  intros s v unit Hv Hu. pose proof (float_numeral s v Hv) as Hn.
  destruct (numeral_differs s Hn) as [HM HK].
  assert (Hkeep : Py.replace "KB" "" (Py.replace "MB" "" (s ++ unit)) = s ++ unit).
  { rewrite (replace_app_absent "M" "B" "" s unit HM).
    assert (Py.replace "MB" "" unit = unit) as ->
      by (cbn in Hu; repeat destruct Hu as [<-|Hu]; try reflexivity; contradiction).
    rewrite (replace_app_absent "K" "B" "" s unit HK).
    assert (Py.replace "KB" "" unit = unit) as ->
      by (cbn in Hu; repeat destruct Hu as [<-|Hu]; try reflexivity; contradiction).
    reflexivity. }
  unfold convert_to_bytes. rewrite Hkeep.
  rewrite float_not_numeral; [reflexivity|].
  rewrite str_forall_app, Hn. cbn [andb].
  cbn in Hu; repeat destruct Hu as [<-|Hu]; try reflexivity; contradiction.
Qed.

Lemma convert_to_bytes_other_spellings_raise_witness :
  Py.float "1.5" = Some 1.5%Q /\
  convert_to_bytes "1.5Kb"
  = Raise (ValueError "could not convert string to float: '1.5Kb'").
Proof.
  split; [reflexivity|].
  exact (convert_to_bytes_other_spellings_raise "1.5" 1.5%Q "Kb" eq_refl
           ltac:(cbn; tauto)).
Defined.

(** ** From the display back to a size *)

Section DecimalText.

Lemma digits_val_acc (d : Decimal.uint) (acc : positive) :
  Py.digits_val (Zpos acc) (NilEmpty.string_of_uint d) = Zpos (Pos.of_uint_acc d acc).
Proof.
  revert acc. induction d; intro acc; cbn [NilEmpty.string_of_uint Py.digits_val Pos.of_uint_acc];
    [reflexivity|..];
    match goal with
    | |- Py.digits_val ?x _ = Zpos (Pos.of_uint_acc _ ?y) =>
        replace x with (Zpos y)
          by (match goal with
              | |- context [Py.digit_val ?c] =>
                  let v := eval vm_compute in (Py.digit_val c) in
                  change (Py.digit_val c) with v
              end; lia);
        apply IHd
    end.
Qed.

Lemma digits_val_uint (d : Decimal.uint) :
  Py.digits_val 0 (NilEmpty.string_of_uint d) = Z.of_N (Pos.of_uint d).
Proof.
  induction d; cbn [NilEmpty.string_of_uint Py.digits_val Pos.of_uint];
    [reflexivity | exact IHd |..];
    match goal with
    | |- Py.digits_val ?x _ = Z.of_N (Npos (Pos.of_uint_acc _ ?y)) =>
        change x with (Zpos y); apply digits_val_acc
    end.
Qed.

Lemma all_digits_uint (d : Decimal.uint) : Py.all_digits (NilEmpty.string_of_uint d) = true.
Proof. induction d; cbn; auto. Qed.

(** The decimal text of a number that is not negative: digits, at least
    one, that read back as the number. *)
Lemma Z_to_string_reads (z : Z) :
  0 <= z ->
  Py.all_digits (Py.Z_to_string z) = true /\
  Py.digits_val 0 (Py.Z_to_string z) = z /\
  Py.Z_to_string z <> "".
Proof.
  intros Hz. destruct z as [|p|p]; [repeat split; discriminate | | lia].
  unfold Py.Z_to_string. cbn [Z.to_int NilZero.string_of_int].
  pose proof (DecimalPos.Unsigned.of_to p) as Hp.
  destruct (Pos.to_uint p) eqn:Hd; [discriminate|..];
    cbn [NilZero.string_of_uint];
    (split; [apply all_digits_uint|]);
    (split; [now rewrite digits_val_uint, Hp | discriminate]).
Qed.

Lemma digits_val_app acc a b :
  Py.digits_val acc (a ++ b) = Py.digits_val (Py.digits_val acc a) b.
Proof. revert acc. induction a as [|c a IH]; intro acc; cbn; [reflexivity | apply IH]. Qed.

Lemma all_digits_app a b :
  Py.all_digits (a ++ b) = (Py.all_digits a && Py.all_digits b)%bool.
Proof. induction a as [|c a IH]; cbn; [reflexivity | now rewrite IH, andb_assoc]. Qed.

(** The two decimals: two digits that read as the number. *)
Lemma two_digits_reads (z : Z) :
  0 <= z < 100 ->
  exists c1 c2,
    Py.two_digits z = String c1 (String c2 "") /\
    Py.is_digit c1 = true /\ Py.is_digit c2 = true /\
    10 * Py.digit_val c1 + Py.digit_val c2 = z.
Proof.
  intros Hz.
  assert (Hall : forallb
                   (fun k => match Py.two_digits (Z.of_nat k) with
                             | String c1 (String c2 EmptyString) =>
                                 (Py.is_digit c1 && Py.is_digit c2
                                  && (10 * Py.digit_val c1 + Py.digit_val c2 =? Z.of_nat k))%bool
                             | _ => false
                             end) (seq 0 100) = true) by (vm_compute; reflexivity).
  rewrite forallb_forall in Hall.
  specialize (Hall (Z.to_nat z)). rewrite Z2Nat.id in Hall by lia.
  specialize (Hall ltac:(apply in_seq; lia)).
  destruct (Py.two_digits z) as [|c1 [|c2 [|]]]; try discriminate.
  apply andb_true_iff in Hall as [[H1 H2]%andb_true_iff H3]. apply Z.eqb_eq in H3.
  exists c1, c2. auto.
Qed.

Lemma split_dot_digits ip fp :
  Py.all_digits ip = true -> Py.split_dot (ip ++ String "." fp) = (ip, Some fp).
Proof.
  induction ip as [|c ip IH]; [reflexivity|].
  cbn [Py.all_digits]. intros [Hc Hi]%andb_true_iff. cbn [String.append Py.split_dot].
  assert (Ascii.eqb c "." = false) as ->.
  { destruct (Ascii.eqb c ".") eqn:He; [|reflexivity].
    apply Ascii.eqb_eq in He. subst c. discriminate. }
  now rewrite IH.
Qed.

(** [float] reads what [.2f] writes: [h] hundredths. *)
Lemma float_of_hundredths (h : Z) :
  0 <= h ->
  Py.float (Py.Z_to_string (h / 100) ++ "." ++ Py.two_digits (h mod 100)) = Some (h # 100).
Proof.
  intros Hh.
  destruct (Z_to_string_reads (h / 100) ltac:(apply Z.div_pos; lia)) as (Hd & Hv & Hne).
  destruct (two_digits_reads (h mod 100) ltac:(apply Z.mod_pos_bound; lia))
    as (c1 & c2 & -> & H1 & H2 & H12).
  remember (Py.Z_to_string (h / 100)) as a eqn:Ha. clear Ha Hne.
  unfold Py.float. change ("." ++ String c1 (String c2 "")) with (String "." (String c1 (String c2 ""))).
  rewrite (split_dot_digits _ _ Hd), Hd.
  cbn [Py.all_digits]. rewrite H1, H2. cbn [andb].
  assert (String.eqb (a ++ String c1 (String c2 "")) "" = false) as ->
    by (destruct a; reflexivity).
  cbn [negb]. rewrite digits_val_app, Hv. cbn [Py.digits_val String.length Py.pow10].
  do 2 f_equal. pose proof (Z.div_mod h 100 ltac:(lia)). lia.
Qed.

(** A numeral followed by a unit in capitals. *)
Lemma convert_numeral_with_unit s v :
  Py.float s = Some v ->
  convert_to_bytes (s ++ "MB") = Val (v * 1024 * 1024)%Q /\
  convert_to_bytes (s ++ "KB") = Val (v * 1024)%Q.
Proof.
  intros Hv. pose proof (float_numeral s v Hv) as Hn.
  destruct (numeral_differs s Hn) as [HM HK].
  unfold convert_to_bytes. split.
  - rewrite (replace_suffix "M" "B" s HM), (replace_absent "K" "B" "" s HK), Hv.
    now rewrite upper_app, contains_suffix.
  - rewrite (replace_absent "M" "B" "" (s ++ "KB"))
      by (rewrite str_forall_app, HM; reflexivity).
    rewrite (replace_suffix "K" "B" s HK), Hv.
    rewrite upper_app, (upper_numeral s Hn). change (Py.upper "KB") with "KB".
    rewrite (contains_absent "M" "B" (s ++ "KB"))
      by (rewrite str_forall_app, HM; reflexivity).
    now rewrite contains_suffix.
Qed.

End DecimalText.

(** X12: [convert_to_bytes] reads back what
    [get_size_in_appropriate_unit] shows.  For the length [n] of a file, not
    negative and below 2^53, the display is accepted, unit included, and the
    size read back is within a hundredth of the unit of [n]: 10.24 bytes in
    KB, 10485.76 bytes in MB.  The two decimals shown differ from [n] by
    half a hundredth of the unit at most; the other half is room for the
    rounding of [float], which this development reads exactly. *)
Theorem display_reads_back :
  forall n : Z,
    0 <= n < 2 ^ 53 ->
    exists v,
      convert_to_bytes (get_size_in_appropriate_unit (inject_Z n)) = Val v /\
      let tolerance := if 1024 * 1024 <=? n then (1024 * 1024 # 100) else (1024 # 100) in
      (inject_Z n - tolerance <= v <= inject_Z n + tolerance)%Q.
Proof.
  intros n [Hn _]. unfold get_size_in_appropriate_unit.
  assert (Hunit : Qle_bool 1024 (inject_Z n / 1024) = (1024 * 1024 <=? n)).
  { destruct (1024 * 1024 <=? n) eqn:Hc.
    - apply Z.leb_le in Hc. apply Qle_bool_iff. unfold Qle. cbn. lia.
    - apply Z.leb_gt in Hc. apply not_true_is_false. intros Hq%Qle_bool_iff.
      unfold Qle in Hq. cbn in Hq. lia. }
  rewrite Hunit. destruct (1024 * 1024 <=? n).
  - change (inject_Z n / 1024 / 1024)%Q with (n * 1 * 1 # 1024 * 1024).
    pose proof (format_2f_nonneg (n * 1 * 1) (1024 * 1024) ltac:(lia)) as Hf.
    cbn zeta in Hf. rewrite Hf. clear Hf.
    pose proof (round_half_even_near (Z.abs (n * 1 * 1) * 100) (1024 * 1024 * 1)) as Hh.
    pose proof (round_half_even_nonneg (Z.abs (n * 1 * 1) * 100) (1024 * 1024 * 1)
                  ltac:(lia)) as H0.
    cbn zeta in Hh.
    change (Z.abs (n * 1 * 1) * 100 # 1024 * 1024 * 1)
      with (Qabs (n * 1 * 1 # 1024 * 1024) * 100)%Q in Hh, H0.
    set (h := Py.round_half_even (Qabs (n * 1 * 1 # 1024 * 1024) * 100)) in *.
    destruct (convert_numeral_with_unit _ _ (float_of_hundredths h H0)) as [-> _].
    eexists. split; [reflexivity|].
    unfold Qle, Qminus, Qplus, Qopp, Qmult, inject_Z. cbn [Qnum Qden]. cbn. lia.
  - change (inject_Z n / 1024)%Q with (n * 1 # 1024).
    pose proof (format_2f_nonneg (n * 1) 1024 ltac:(lia)) as Hf.
    cbn zeta in Hf. rewrite Hf. clear Hf.
    pose proof (round_half_even_near (Z.abs (n * 1) * 100) (1024 * 1)) as Hh.
    pose proof (round_half_even_nonneg (Z.abs (n * 1) * 100) (1024 * 1) ltac:(lia)) as H0.
    cbn zeta in Hh.
    change (Z.abs (n * 1) * 100 # 1024 * 1) with (Qabs (n * 1 # 1024) * 100)%Q in Hh, H0.
    set (h := Py.round_half_even (Qabs (n * 1 # 1024) * 100)) in *.
    destruct (convert_numeral_with_unit _ _ (float_of_hundredths h H0)) as [_ ->].
    eexists. split; [reflexivity|].
    unfold Qle, Qminus, Qplus, Qopp, Qmult, inject_Z. cbn [Qnum Qden]. cbn. lia.
Qed.

(** 1536 * 1024 bytes are shown as "1.50MB" and read back exactly. *)
Lemma display_reads_back_witness :
  0 <= 1536 * 1024 < 2 ^ 53 /\
  get_size_in_appropriate_unit (inject_Z (1536 * 1024)) = "1.50MB" /\
  exists v,
    convert_to_bytes "1.50MB" = Val v /\
    (inject_Z (1536 * 1024) - (1024 * 1024 # 100) <= v
     <= inject_Z (1536 * 1024) + (1024 * 1024 # 100))%Q.
Proof.
  assert (Hn : 0 <= 1536 * 1024 < 2 ^ 53) by lia.
  split; [exact Hn|]. split; [reflexivity|].
  exact (display_reads_back (1536 * 1024) Hn).
Defined.

(** ** The conversation tracker *)

(** X13: [handle_photo] records the photo when [get_file] answers: the
    user's entry then names this file and awaits 'size_format' whatever was
    pending before, so a second photo replaces the first; the entries of
    other users are untouched.  When [get_file] raises, [user_states] is
    left as it was. *)
Theorem handle_photo_records_latest :
  forall tr (user_states : gmap Z UserState) user earlier file path file_size,
    get_file tr file = Some (path, file_size) ->
    let recorded := fst (handle_photo tr user_states user file) in
    recorded !! user = Some (mkState file "size_format" (inject_Z file_size / 1024)) /\
    awaiting_spec recorded user = true /\
    (forall other, other <> user -> recorded !! other = user_states !! other) /\
    fst (handle_photo tr (fst (handle_photo tr user_states user earlier)) user file)
    = recorded /\
    (forall missing, get_file tr missing = None ->
                     fst (handle_photo tr recorded user missing) = recorded).
Proof.
  intros tr user_states user earlier file path file_size Hfile recorded.
  assert (Hrec : forall st, fst (handle_photo tr st user file)
                            = <[user := mkState file "size_format"
                                          (inject_Z file_size / 1024)]> st).
  { intro st. unfold handle_photo. now rewrite Hfile. }
  unfold recorded. rewrite !Hrec. split; [apply lookup_insert_eq|].
  split; [unfold awaiting_spec; now rewrite lookup_insert_eq|].
  split; [intros other Hne; now apply lookup_insert_ne|].
  split.
  - unfold handle_photo at 1. destruct (get_file tr earlier) as [[p z]|]; cbn [fst].
    + apply insert_insert_eq.
    + reflexivity.
  - intros missing Hmiss. unfold handle_photo. now rewrite Hmiss.
Qed.

(** On the toy transport: user 7 sends the stored photo twice, the second
    time after a photo the transport does not know. *)
Lemma handle_photo_records_latest_witness :
  let recorded := fst (handle_photo toy_transport (∅ : gmap Z UserState) 7 "photo-1") in
  get_file toy_transport "photo-1" = Some ("photos/1.jpg", 390) /\
  recorded !! 7 = Some (mkState "photo-1" "size_format" (inject_Z 390 / 1024)) /\
  fst (handle_photo toy_transport
         (fst (handle_photo toy_transport ∅ 7 "photo-0")) 7 "photo-1") = recorded.
Proof.
  split; [reflexivity|].
  destruct (handle_photo_records_latest toy_transport ∅ 7 "photo-0" "photo-1"
              "photos/1.jpg" 390 eq_refl) as (Hentry & _ & _ & Hreplace & _).
  split; [exact Hentry | exact Hreplace].
Defined.

(** ** The conversion request *)

Section RequestFacts.
Context `{Imaging}.

(** The engines never leave their loops unfinished: they return or raise. *)
Lemma for_both_never_out_of_fuel data target fmt :
  fst (for_both.process_image data target fmt) <> OutOfFuel.
Proof.
  destruct target as [lo hi].
  destruct (dict_get SUPPORTED_FORMATS fmt) eqn:Hf.
  - destruct (Image_open data) eqn:Ho.
    + destruct (for_both_answers data lo hi fmt) as (r & t & Hr); [congruence..|].
      now rewrite Hr.
    + unfold for_both.process_image. now rewrite Hf, Ho.
  - unfold for_both.process_image. now rewrite Hf.
Qed.

Lemma image_resize_never_out_of_fuel data target fmt :
  fst (image_resize.process_image data target fmt) <> OutOfFuel.
Proof.
  destruct target as [lo hi].
  destruct (dict_get SUPPORTED_FORMATS fmt) eqn:Hf.
  - destruct (Image_open data) eqn:Ho.
    + destruct (image_resize_answers data lo hi fmt) as (r & t & Hr); [congruence..|].
      now rewrite Hr.
    + unfold image_resize.process_image. now rewrite Hf, Ho.
  - unfold image_resize.process_image. now rewrite Hf.
Qed.

End RequestFacts.

Section ImageResizeBounds.
Context `{Imaging}.

(** The log of a [while] loop is no longer than the rounds of its orbit
    allow. *)
Lemma while_log_length {S R : Type} fuel (cond : S -> bool) (g : S -> S)
    (body : S -> M (step S R)) s l (n : nat) :
  (forall s, (List.length (snd (body s)) <= n)%nat /\
             forall s', fst (body s) = Val (Next s') -> s' = g s) ->
  orbit fuel cond g s = Some l ->
  (List.length (snd (while fuel cond body s)) <= List.length l * n)%nat.
Proof.
  intros Hb. revert s l. induction fuel as [|fuel IH]; cbn [while orbit]; intros s l Ho.
  - destruct (cond s); [discriminate|]. cbn. lia.
  - destruct (cond s); [|cbn; lia].
    destruct (orbit fuel cond g (g s)) as [l'|] eqn:Hl; [|discriminate].
    injection Ho as <-. destruct (Hb s) as [Hlen Hnext].
    destruct (body s) as [[[s'| |r]| |] t]; cbn [fst snd] in Hlen, Hnext;
      cbn [bind ret snd List.length]; rewrite ?app_nil_r; try lia.
    rewrite (Hnext s' eq_refl). specialize (IH _ _ Hl).
    destruct (while fuel cond body (g s)) as [r t']. cbn [snd] in IH |- *.
    rewrite length_app. lia.
Qed.

Lemma image_resize_grow_log img lo hi f :
  (List.length (snd (image_resize.grow_block img lo hi f)) <= 7)%nat.
Proof.
  unfold image_resize.grow_block. destruct (size img) as [w h].
  etransitivity;
    [eapply (while_log_length _ _ (fun scale_factor => (scale_factor * 1.1)%Q) _ _ _ 1);
     [|exact orbit_growth_factors]|cbn; lia].
  intro sf. unfold do_save. cbn [bind]. cbn zeta.
  destruct (between lo _ hi); [split; [cbn; lia | discriminate]|].
  destruct (Qlt_bool hi _); (split; [cbn; lia|]); [discriminate|].
  now intros s' [= <-].
Qed.

Lemma image_resize_shrink_log img lo hi f :
  (List.length (snd (image_resize.shrink_block img lo hi f))
   <= 19 * Z.to_nat (fst (size img) - 100))%nat.
Proof.
  unfold image_resize.shrink_block. destruct (size img) as [w h]. cbn [fst].
  destruct (shrink_orbit (Z.to_nat w) (w, h)) as (l & Hl & Hsteps & _); [cbn; lia|].
  apply shrink_steps_length in Hsteps. rewrite length_map in Hsteps. cbn [fst] in Hsteps.
  etransitivity; [eapply (while_log_length _ _ next_geometry _ _ _ 19); [|exact Hl]|lia].
  intros [w' h'].
  pose proof (for_in_log_length (Py.range_down 32 95 4 5)
                (fun quality =>
                   b <- do_save (resize img (w', h')) f (q_only quality) ;;
                   if Qle_bool (len b) hi then ret (Some (b, len b)) else ret None) 1) as Hlog.
  assert (Hcalls : (List.length (snd (image_resize.try_save_image img f hi w' h')) <= 19)%nat).
  { etransitivity; [apply Hlog|vm_compute; lia].
    intro q. unfold do_save. cbn [bind]. destruct (Qle_bool _ hi); cbn; lia. }
  destruct (image_resize.try_save_image img f hi w' h') as [[[[result sz]|]| |] t];
    cbn [snd] in Hcalls; cbn [bind].
  - destruct (image_resize.truthy result && between lo sz hi)%bool;
      cbn [ret fst snd]; rewrite app_nil_r; (split; [exact Hcalls|]); [discriminate|].
    now intros s' [= <-].
  - cbn [ret fst snd]. rewrite app_nil_r. split; [exact Hcalls|]. now intros s' [= <-].
  - cbn [fst snd]. split; [exact Hcalls | discriminate].
  - cbn [fst snd]. split; [exact Hcalls | discriminate].
Qed.

End ImageResizeBounds.

(** X2: both engines come to an end on every input, whatever the encoder
    returns and however large the picture is: no loop of [process_image]
    needs more rounds than the scale bounds and the floor of 100 pixels
    allow.  For image_resize.py the encoder calls are at most seven for the
    growth loop, nineteen for every pixel of width above 100 for the shrink
    loop, and one for a file that already fits. *)
Theorem engines_terminate_with_bounded_work :
  forall `{Imaging} data lo hi fmt,
    fst (for_both.process_image data (lo, hi) fmt) <> OutOfFuel /\
    fst (image_resize.process_image data (lo, hi) fmt) <> OutOfFuel /\
    forall f opened,
      dict_get SUPPORTED_FORMATS fmt = Some f ->
      Image_open data = Some opened ->
      (List.length (snd (image_resize.process_image data (lo, hi) fmt))
       <= 8 + 19 * Z.to_nat (fst (size (Spec.prepared f opened)) - 100))%nat.
Proof.
  intros ? data lo hi fmt.
  split; [apply for_both_never_out_of_fuel|].
  split; [apply image_resize_never_out_of_fuel|].
  intros f opened Hf Ho. unfold image_resize.process_image. rewrite Hf, Ho.
  fold (Spec.prepared f opened). set (img := Spec.prepared f opened).
  pose proof (image_resize_grow_log img lo hi f) as Hg.
  pose proof (image_resize_shrink_log img lo hi f) as Hs.
  assert (Hgrown : forall c : M (option bytes),
             c = image_resize.grow_block img lo hi f \/ c = ret None ->
             (List.length (snd c) <= 7)%nat).
  { intros c [-> | ->]; [exact Hg | cbn; lia]. }
  assert (Hshrunk : forall c : M (option bytes),
             c = image_resize.shrink_block img lo hi f \/ c = ret None ->
             (List.length (snd c) <= 19 * Z.to_nat (fst (size img) - 100))%nat).
  { intros c [-> | ->]; [exact Hs | cbn; lia]. }
  match goal with
  | |- context [bind ?g _] =>
      assert (Hg' : (List.length (snd g) <= 7)%nat)
        by (apply Hgrown; destruct (Qlt_bool (len data) lo); auto);
      destruct g as [[[b|]| |] tg]; cbn [snd] in Hg'; cbn [bind ret snd];
        rewrite ?app_nil_r; try lia
  end.
  match goal with
  | |- context [bind ?g _] =>
      assert (Hs' : (List.length (snd g) <= 19 * Z.to_nat (fst (size img) - 100))%nat)
        by (apply Hshrunk;
            destruct (Qlt_bool hi (len data) || Qlt_bool (len data) lo)%bool; auto);
      destruct g as [[[b|]| |] ts]; cbn [snd] in Hs'; cbn [bind ret snd];
        rewrite ?app_nil_r, ?length_app; try lia
  end.
  destruct (between lo (len data) hi); unfold do_save; cbn [bind ret snd];
    rewrite ?length_app; cbn [List.length]; lia.
Qed.

(** On the toy encoder: a file of 100 bytes below [500, 600], a picture of
    200 by 200; image_resize.py stays within 8 + 19 * 100 calls. *)
Lemma engines_terminate_with_bounded_work_witness :
  Image_open (Imaging := Toy.imaging) (Toy.file 20 20 100) = Some (Toy.mkPic 200 200) /\
  (List.length (snd (image_resize.process_image (H := Toy.imaging)
                       (Toy.file 20 20 100) (500, 600)%Q "WEBP"))
   <= 8 + 19 * Z.to_nat (200 - 100))%nat.
Proof.
  split; [reflexivity|].
  exact (proj2 (proj2 (engines_terminate_with_bounded_work (H := Toy.imaging)
                         (Toy.file 20 20 100) 500 600 "WEBP"))
           WEBP (Toy.mkPic 200 200) eq_refl eq_refl).
Defined.

Lemma convert_to_bytes_answers size_str : convert_to_bytes size_str <> OutOfFuel.
Proof.
  unfold convert_to_bytes.
  destruct (Py.float _); [|discriminate].
  destruct (Py.contains "MB" _); [discriminate|].
  destruct (Py.contains "KB" _); discriminate.
Qed.

Section RequestSteps.
Context {E : Type}.

Lemma bind_ext_on {A B : Type} (m : Eff E A) (k k' : A -> Eff E B) :
  (forall a t, m = (Val a, t) -> k a = k' a) -> bind m k = bind m k'.
Proof.
  intros Hk. unfold bind. destruct m as [[a| |] t]; try reflexivity.
  now rewrite (Hk a t eq_refl).
Qed.

Lemma bind_ret_l {A B : Type} (a : A) (k : A -> Eff E B) : bind (Val a, []) k = k a.
Proof. unfold bind. now destruct (k a). Qed.

End RequestSteps.

Lemma from_option_val {A : Type} (o : option A) e a t :
  from_option o e = (Val a, t) -> o = Some a.
Proof. destruct o; [now intros [= -> _] | discriminate]. Qed.

(** X14: what [handle_conversion_request] sends depends on [user_states]
    only through the entry of the sender, and on [process_image] only at the
    requests the handler lets through: the bytes downloaded for the recorded
    file, bounds with minimum below maximum, and a format name that is a key
    of [SUPPORTED_FORMATS].  Two engines that agree there, and two trackers
    that agree on the sender, give the same exchange. *)
Theorem request_reads_own_entry_and_valid_engine :
  forall tr engine engine' (user_states others : gmap Z UserState) message,
    user_states !! from_user_id message = others !! from_user_id message ->
    (forall entry info data lo hi fmt,
        user_states !! from_user_id message = Some entry ->
        get_file tr (file_id entry) = Some info ->
        download_file tr (fst info) = Some data ->
        (lo < hi)%Q ->
        dict_get SUPPORTED_FORMATS fmt <> None ->
        engine data (lo, hi) fmt = engine' data (lo, hi) fmt) ->
    snd (handle_conversion_request tr engine user_states message)
    = snd (handle_conversion_request tr engine' others message).
Proof.
  intros tr engine engine' user_states others message Hentry Hagree.
  unfold handle_conversion_request. cbn [snd]. f_equal.
  unfold conversion_request. rewrite <- Hentry.
  destruct (Py.split _) as [|size_range [|output_format [|? ?]]]; try reflexivity.
  destruct (dict_get SUPPORTED_FORMATS _) eqn:Hformat; [|reflexivity].
  destruct (Re.re_match _ _ _) as [[|lo_str [|hi_str [|? ?]]]|]; try reflexivity.
  apply bind_ext_on. intros lo _ _. apply bind_ext_on. intros hi _ _.
  destruct (Qle_bool hi lo) eqn:Horder; [reflexivity|].
  apply bind_ext_on. intros _ _ _.
  apply bind_ext_on. intros entry ? Hsome%from_option_val.
  apply bind_ext_on. intros info ? Hinfo%from_option_val.
  apply bind_ext_on. intros data ? Hdata%from_option_val.
  rewrite (Hagree entry info data lo hi (Py.upper output_format)); try assumption.
  - reflexivity.
  - apply Qlt_bool_iff. unfold Qlt_bool. now rewrite Horder.
  - congruence.
Qed.

(** On the toy transport: a second user in the tracker, and an engine that
    raises when the bounds are not in order, change nothing for user 7. *)
Lemma request_reads_own_entry_and_valid_engine_witness :
  let recorded : gmap Z UserState := <[7 := mkState "photo-1" "size_format" 0]> ∅ in
  let crowded : gmap Z UserState := <[8 := mkState "photo-2" "size_format" 0]> recorded in
  let guarded data (target : Q * Q) fmt :=
    if Qlt_bool (fst target) (snd target) then toy_for_both data target fmt
    else Raise KeyError in
  let request := mkMessage 7 1 "0.3KB-0.4KB png" in
  snd (handle_conversion_request toy_transport toy_for_both recorded request)
  = snd (handle_conversion_request toy_transport guarded crowded request).
Proof.
  intros recorded crowded guarded request.
  apply (request_reads_own_entry_and_valid_engine toy_transport toy_for_both guarded
           recorded crowded request).
  - reflexivity.
  - intros entry info data lo hi fmt _ _ _ Hlt _. unfold guarded. cbn [fst snd].
    now rewrite (proj2 (Qlt_bool_iff lo hi) Hlt).
Defined.

Section Answers.
Variable tr : Transport.
Variable engine : bytes -> Q * Q -> string -> res (option bytes).
Hypothesis delivering : forall r, delivers tr r = true.
Hypothesis engine_ends : forall data target fmt, engine data target fmt <> OutOfFuel.

Lemma send_delivering r : send tr r = (Val tt, [r]).
Proof. unfold send. now rewrite delivering. Qed.

(** What the [try] block leaves behind: a [ValueError] before anything was
    sent, another exception after the notice, or the notice and the one or
    two calls that end the exchange. *)
Lemma conversion_request_outcome (user_states : gmap Z UserState) message :
  let notice := reply_to (gear ++ " Processing your image...") in
  let outcome := conversion_request tr engine user_states message in
  (exists msg, outcome = (Raise (ValueError msg), [])) \/
  (exists e, outcome = (Raise e, [notice]) /\ forall msg, e <> ValueError msg) \/
  (exists body, outcome = (Val tt, [notice; edit_message_text (cross_mark ++ body)])) \/
  (exists x rest name caption,
      outcome = (Val tt, [notice; delete_message; send_document (x :: rest) name caption])).
Proof.
  intros notice outcome. unfold outcome, conversion_request.
  destruct (Py.split _) as [|size_range [|output_format [|? ?]]];
    try (left; eexists; reflexivity).
  destruct (dict_get SUPPORTED_FORMATS _) eqn:Hformat; [|left; eexists; reflexivity].
  destruct (Re.re_match _ _ _) as [[|lo_str [|hi_str [|? ?]]]|];
    try (left; eexists; reflexivity).
  pose proof (convert_to_bytes_answers lo_str) as Hlo_ends.
  pose proof (convert_to_bytes_answers hi_str) as Hhi_ends.
  assert (Hraises : forall s e, convert_to_bytes s = Raise e -> exists msg, e = ValueError msg).
  { intros s e. unfold convert_to_bytes. destruct (Py.float _).
    - destruct (Py.contains "MB" _); [discriminate|].
      destruct (Py.contains "KB" _); discriminate.
    - intros [= <-]. eexists; reflexivity. }
  destruct (convert_to_bytes lo_str) as [lo|e|] eqn:Hlo; [| |congruence].
  2: { destruct (Hraises _ _ Hlo) as [msg ->]. left; eexists; reflexivity. }
  unfold lift. rewrite bind_ret_l.
  destruct (convert_to_bytes hi_str) as [hi|e|] eqn:Hhi; [| |congruence].
  2: { destruct (Hraises _ _ Hhi) as [msg ->]. left; eexists; reflexivity. }
  rewrite bind_ret_l.
  destruct (Qle_bool hi lo); [left; eexists; reflexivity|].
  rewrite send_delivering. fold notice.
  rewrite (bind_val _ _ tt [notice] eq_refl).
  destruct (user_states !! from_user_id message) as [entry|];
    [|right; left; eexists; split; [reflexivity | discriminate]].
  cbn [from_option]. unfold ret. rewrite bind_ret_l.
  destruct (get_file tr (file_id entry)) as [info|];
    [|right; left; eexists; split; [reflexivity | discriminate]].
  cbn [from_option]. unfold ret. rewrite bind_ret_l.
  destruct (download_file tr (fst info)) as [data|];
    [|right; left; eexists; split; [reflexivity | discriminate]].
  cbn [from_option]. unfold ret. rewrite bind_ret_l.
  destruct (engine data (lo, hi) (Py.upper output_format)) as [[[|x rest]|]|e|] eqn:Hengine;
    [| | | |now destruct (engine_ends data (lo, hi) (Py.upper output_format))].
  - rewrite bind_ret_l, send_delivering.
    right; right; left. eexists. reflexivity.
  - rewrite bind_ret_l, !send_delivering.
    right; right; right. do 4 eexists. reflexivity.
  - rewrite bind_ret_l, send_delivering.
    right; right; left. eexists. reflexivity.
  - change (bind (Raise e, []) _) with (@raise Reply unit e).
    rewrite try_except_raise, send_delivering.
    right; right; left. eexists. reflexivity.
Qed.

End Answers.

(** X15: when the transport delivers and the engine returns or raises,
    [handle_conversion_request] lets no exception out and answers every
    text in one of four ways: one reply that starts with the cross mark; the
    notice and then the reply 'An error occurred'; the notice and then one
    edit of it that starts with the cross mark; or the notice, its deletion
    and a document, and the document is never empty. *)
Theorem every_request_is_answered :
  forall tr engine (user_states : gmap Z UserState) message,
    (forall r, delivers tr r = true) ->
    (forall data target fmt, engine data target fmt <> OutOfFuel) ->
    let notice := reply_to (gear ++ " Processing your image...") in
    exists calls,
      snd (handle_conversion_request tr engine user_states message) = (Val tt, calls) /\
      ((exists msg, calls = [reply_to (cross_mark ++ " " ++ msg)]) \/
       calls = [notice; reply_to (cross_mark ++ " An error occurred. Please try again.")] \/
       (exists body, calls = [notice; edit_message_text (cross_mark ++ body)]) \/
       (exists x rest name caption,
           calls = [notice; delete_message; send_document (x :: rest) name caption])).
Proof.
  intros tr engine user_states message Hdel Hends notice.
  unfold handle_conversion_request. cbn [snd].
  destruct (conversion_request_outcome tr engine Hdel Hends user_states message)
    as [(msg & ->) | [(e & -> & Hne) | [(body & ->) | (x & rest & name & caption & ->)]]].
  - change (Raise (ValueError msg), []) with (@raise Reply unit (ValueError msg)).
    rewrite try_except_raise, (send_delivering tr Hdel).
    eexists. split; [reflexivity|]. left. eexists; reflexivity.
  - cbn [try_except]. destruct e as [msg| |what]; [now destruct (Hne msg)| |];
      rewrite (send_delivering tr Hdel); (eexists; split; [reflexivity|]);
      right; left; reflexivity.
  - eexists. split; [reflexivity|]. right; right; left. eexists; reflexivity.
  - eexists. split; [reflexivity|]. right; right; right. do 4 eexists; reflexivity.
Qed.

(** On the toy transport with the engine of for_both.py: no photo was
    recorded, so the notice is followed by 'An error occurred'. *)
Lemma every_request_is_answered_witness :
  exists calls,
    snd (handle_conversion_request toy_transport toy_for_both ∅
           (mkMessage 7 1 "0.3KB-0.4KB png")) = (Val tt, calls) /\
    List.length calls = 2%nat.
Proof.
  destruct (every_request_is_answered toy_transport toy_for_both ∅
              (mkMessage 7 1 "0.3KB-0.4KB png") (fun _ => eq_refl)
              (fun data target fmt =>
                 for_both_never_out_of_fuel (H := Toy.imaging) data target fmt))
    as (calls & Hcalls & Hshape).
  exists calls. split; [exact Hcalls|].
  vm_compute in Hcalls. injection Hcalls as <-. reflexivity.
Defined.

(** ** The pattern of the size range *)

Section PatternFacts.

(** [\d+] with the rest of the pattern as [k], by the rounds left. *)
Definition more_digits (k : Re.cont) : nat -> string -> list string -> option (list string) :=
  fix more (n : nat) (s : string) (caps : list string) : option (list string) :=
    Re.go true Re.Digit s caps (fun s1 c1 =>
      match n with
      | O => k s1 c1
      | S n' =>
          match more n' s1 c1 with
          | Some m => Some m
          | None => k s1 c1
          end
      end).

Lemma go_plus_digit s caps k :
  Re.go true (Re.Plus Re.Digit) s caps k = more_digits k (String.length s) s caps.
Proof. reflexivity. Qed.

(** A text that does not go on with a digit. *)
Definition no_digit_ahead (s : string) : Prop :=
  match s with
  | String c _ => Py.is_digit c = false
  | EmptyString => True
  end.

Lemma more_digits_eq k n s caps :
  more_digits k n s caps
  = Re.go true Re.Digit s caps (fun s1 c1 =>
      match n with
      | O => k s1 c1
      | S n' =>
          match more_digits k n' s1 c1 with
          | Some m => Some m
          | None => k s1 c1
          end
      end).
Proof. now destruct n. Qed.

Lemma more_digits_stops k n rest caps :
  no_digit_ahead rest -> more_digits k n rest caps = None.
Proof.
  intros Hrest. destruct n; destruct rest as [|c rest]; cbn in *; try reflexivity;
    now rewrite Hrest.
Qed.

Lemma length_app_str (a b : string) :
  String.length (a ++ b) = (String.length a + String.length b)%nat.
Proof. induction a as [|c a IH]; cbn; [reflexivity | now rewrite IH]. Qed.

(** Greedy [\d+] reads all the digits when the rest of the pattern then
    matches. *)
Lemma more_digits_all k n ds rest caps m :
  ds <> "" -> Py.all_digits ds = true -> no_digit_ahead rest ->
  (String.length ds <= n + 1)%nat ->
  k rest caps = Some m ->
  more_digits k n (ds ++ rest) caps = Some m.
Proof.
  revert n. induction ds as [|c ds IH]; intros n Hne Hds Hrest Hn Hk; [congruence|].
  cbn in Hds. apply andb_prop in Hds as [Hc Hds].
  destruct ds as [|c' ds].
  - destruct n; cbn; rewrite Hc; [exact Hk|].
    now rewrite (more_digits_stops k n rest caps Hrest).
  - destruct n as [|n]; [cbn in Hn; lia|].
    rewrite more_digits_eq. cbn [append Re.go]. rewrite Hc.
    change (String c' (ds ++ rest)) with (String c' ds ++ rest).
    rewrite (IH n); [reflexivity|discriminate|exact Hds|exact Hrest| |exact Hk].
    cbn in Hn |- *. lia.
Qed.

(** The spellings of a unit that [IGNORECASE] lets through. *)
Definition unit_spellings : list string :=
  ["MB"; "Mb"; "mB"; "mb"; "KB"; "Kb"; "kB"; "kb"].

(** Digits, or digits, a dot and digits. *)
Definition digits (s : string) : Prop := s <> "" /\ Py.all_digits s = true.

Definition size_numeral (s : string) : Prop :=
  digits s \/ exists a b, digits a /\ digits b /\ s = a ++ "." ++ b.

Definition units : Re.re := Re.Alt (Re.lit2 "M" "B") (Re.lit2 "K" "B").
Definition fraction : Re.re := Re.Opt (Re.Seq (Re.Chr ".") (Re.Plus Re.Digit)).

Lemma go_units u tail caps k :
  In u unit_spellings -> Re.go true units (u ++ tail) caps k = k tail caps.
Proof.
  intros Hu. repeat (destruct Hu as [<-|Hu]; [vm_compute; now destruct (k tail caps)|]).
  destruct Hu.
Qed.

Lemma go_fraction_absent c s caps k :
  Re.chr_eq true "." c = false ->
  Re.go true fraction (String c s) caps k = k (String c s) caps.
Proof. intros Hc. unfold fraction. cbn [Re.go]. now rewrite Hc. Qed.

Lemma unit_ahead u tail :
  In u unit_spellings ->
  no_digit_ahead (u ++ tail) /\
  exists c s, u ++ tail = String c s /\ Re.chr_eq true "." c = false.
Proof.
  intros Hu.
  repeat (destruct Hu as [<-|Hu]; [split; [reflexivity|]; do 2 eexists; split; reflexivity|]).
  destruct Hu.
Qed.

Lemma go_seq a b s caps k :
  Re.go true (Re.Seq a b) s caps k
  = Re.go true a s caps (fun s1 c1 => Re.go true b s1 c1 k).
Proof. reflexivity. Qed.

Lemma go_opt a s caps k :
  Re.go true (Re.Opt a) s caps k
  = match Re.go true a s caps k with
    | Some m => Some m
    | None => k s caps
    end.
Proof. reflexivity. Qed.

Lemma go_chr_seq x c r s caps k :
  Re.chr_eq true x c = true ->
  Re.go true (Re.Seq (Re.Chr x) r) (String c s) caps k = Re.go true r s caps k.
Proof. intros Hc. rewrite go_seq. cbn [Re.go]. now rewrite Hc. Qed.

Lemma go_digits_then ds rest caps k m :
  digits ds -> no_digit_ahead rest -> k rest caps = Some m ->
  Re.go true (Re.Plus Re.Digit) (ds ++ rest) caps k = Some m.
Proof.
  intros [Hne Hds] Hrest Hk. rewrite go_plus_digit.
  apply more_digits_all; try assumption. rewrite length_app_str. lia.
Qed.

(** A size with its unit is read to its end when the rest of the pattern
    matches what follows. *)
Lemma go_size_with_unit num u tail caps k m :
  size_numeral num -> In u unit_spellings -> k tail caps = Some m ->
  Re.go true Re.size_with_unit (num ++ u ++ tail) caps k = Some m.
Proof.
  intros Hnum Hu Hk.
  destruct (unit_ahead u tail Hu) as (Hahead & c & s & Hs & Hc).
  assert (Hrest : Re.go true (Re.Seq fraction units) (u ++ tail) caps k = Some m).
  { rewrite go_seq, Hs, go_fraction_absent by exact Hc. rewrite <- Hs.
    now rewrite go_units. }
  change Re.size_with_unit with (Re.Seq (Re.Plus Re.Digit) (Re.Seq fraction units)).
  rewrite go_seq.
  destruct Hnum as [Hds | (a & b & Ha & Hb & ->)].
  - now apply go_digits_then.
  - rewrite (str_app_assoc a ("." ++ b)).
    apply go_digits_then; [exact Ha|reflexivity|].
    rewrite go_seq. unfold fraction. rewrite go_opt.
    change (("." ++ b) ++ u ++ tail) with (String "." (b ++ u ++ tail)).
    rewrite go_chr_seq by reflexivity.
    rewrite (go_digits_then b (u ++ tail) caps _ m Hb Hahead); [reflexivity|].
    now rewrite go_units.
Qed.

Lemma consumed_app p q : Re.consumed (p ++ q) q = p.
Proof.
  unfold Re.consumed. rewrite length_app_str.
  replace (String.length p + String.length q - String.length q)%nat
    with (String.length p) by lia.
  induction p as [|c p IH]; cbn; [now destruct q | now rewrite IH].
Qed.

Lemma go_group r s caps k :
  Re.go true (Re.Group r) s caps k
  = Re.go true r s caps (fun s1 c1 => k s1 (c1 ++ [Re.consumed s s1])%list).
Proof. reflexivity. Qed.

(** A character at which the pattern cannot go on after the digits of the
    first number: no dot, no M, no K. *)
Definition blocked (c : ascii) : Prop :=
  Re.chr_eq true "." c = false /\ Re.chr_eq true "M" c = false /\
  Re.chr_eq true "K" c = false.

Lemma digit_blocked c : Py.is_digit c = true -> blocked c.
Proof.
  destruct c as [[] [] [] [] [] [] [] []]; intros Hc; try discriminate Hc;
    repeat split; reflexivity.
Qed.

Lemma other_blocked c : ~ In c ["."; "M"; "m"; "K"; "k"]%char -> blocked c.
Proof.
  intros Hc.
  destruct c as [[] [] [] [] [] [] [] []];
    try (repeat split; reflexivity);
    exfalso; apply Hc; cbn; tauto.
Qed.

Lemma go_blocked c s caps k :
  blocked c -> Re.go true (Re.Seq fraction units) (String c s) caps k = None.
Proof.
  intros (Hdot & Hm & Hk). rewrite go_seq, go_fraction_absent by exact Hdot.
  unfold units, Re.lit2. cbn [Re.go]. now rewrite Hm, Hk.
Qed.

Lemma digits_then_blocked ds c rest :
  Py.all_digits ds = true -> blocked c ->
  exists c' s', ds ++ String c rest = String c' s' /\ blocked c'.
Proof.
  intros Hds Hc. destruct ds as [|d ds]; cbn in *.
  - now exists c, rest.
  - apply andb_prop in Hds as [Hd _]. exists d, (ds ++ String c rest).
    split; [reflexivity | now apply digit_blocked].
Qed.

(** [\d+] fails when the rest of the pattern fails wherever the digits
    are left. *)
Lemma more_digits_none k n ds c rest caps :
  Py.all_digits ds = true -> Py.is_digit c = false -> blocked c ->
  (forall c' s', blocked c' -> k (String c' s') caps = None) ->
  more_digits k n (ds ++ String c rest) caps = None.
Proof.
  intros Hds Hc Hb Hk. revert n.
  induction ds as [|d ds IH]; intros n; [now apply more_digits_stops|].
  cbn in Hds. apply andb_prop in Hds as [Hd Hds].
  destruct (digits_then_blocked ds c rest Hds Hb) as (c' & s' & Hs & Hb').
  rewrite more_digits_eq. cbn [append Re.go]. rewrite Hd.
  destruct n as [|n].
  - rewrite Hs. now apply Hk.
  - rewrite (IH Hds n), Hs. now apply Hk.
Qed.

End PatternFacts.

(** X16: [size_pattern] with [IGNORECASE] matches every text that starts
    with a range: a number (digits, or digits, a dot and digits), MB or KB
    in any mix of cases, a dash, and a second number with its unit.  The two
    groups are the two sizes as written, and what follows the range is
    ignored. *)
Theorem size_pattern_accepts_ranges :
  forall lo hi u1 u2 tail,
    size_numeral lo -> size_numeral hi ->
    In u1 unit_spellings -> In u2 unit_spellings ->
    Re.re_match true size_pattern (lo ++ u1 ++ "-" ++ hi ++ u2 ++ tail)
    = Some [lo ++ u1; hi ++ u2].
Proof.
  intros lo hi u1 u2 tail Hlo Hhi Hu1 Hu2.
  unfold Re.re_match, size_pattern. rewrite go_seq, go_group.
  apply go_size_with_unit; [exact Hlo|exact Hu1|].
  change ("-" ++ hi ++ u2 ++ tail) with (String "-" (hi ++ u2 ++ tail)).
  rewrite go_chr_seq by reflexivity.
  rewrite go_group. apply go_size_with_unit; [exact Hhi|exact Hu2|].
  cbn [app]. f_equal. f_equal; [|f_equal].
  - rewrite <- (str_app_assoc lo u1). apply consumed_app.
  - rewrite <- (str_app_assoc hi u2). apply consumed_app.
Qed.

(** On '1.5mb-20KBx': the groups are '1.5mb' and '20KB'. *)
Lemma size_pattern_accepts_ranges_witness :
  Re.re_match true size_pattern "1.5mb-20KBx" = Some ["1.5mb"; "20KB"].
Proof.
  apply (size_pattern_accepts_ranges "1.5" "20" "mb" "KB" "x").
  - right. exists "1", "5". repeat split; discriminate.
  - left. split; [discriminate | reflexivity].
  - cbn. tauto.
  - cbn. tauto.
Defined.

(** X17: on ASCII text, [size_pattern] matches nothing that does not start
    with a digit, and nothing whose leading digits are followed by a
    character other than a digit, a dot, M or K: a first number without a
    unit, as in '2-3MB', or with another unit, as in '2GB-3GB', is
    refused. *)
Theorem size_pattern_rejects :
  (forall s,
      match s with
      | String c _ => Py.is_digit c = false /\ (nat_of_ascii c < 128)%nat
      | EmptyString => True
      end ->
      Re.re_match true size_pattern s = None) /\
  (forall ds c rest,
      Py.all_digits ds = true ->
      (nat_of_ascii c < 128)%nat ->
      Py.is_digit c = false -> ~ In c ["."; "M"; "m"; "K"; "k"]%char ->
      Re.re_match true size_pattern (ds ++ String c rest) = None).
Proof.
  split.
  - intros s Hs. unfold Re.re_match, size_pattern. rewrite go_seq, go_group.
    change Re.size_with_unit with (Re.Seq (Re.Plus Re.Digit) (Re.Seq fraction units)).
    rewrite go_seq, go_plus_digit. apply more_digits_stops.
    destruct s as [|c s]; [exact I | exact (proj1 Hs)].
  - intros ds c rest Hds _ Hc Hother. unfold Re.re_match, size_pattern.
    rewrite go_seq, go_group.
    change Re.size_with_unit with (Re.Seq (Re.Plus Re.Digit) (Re.Seq fraction units)).
    rewrite go_seq, go_plus_digit.
    apply more_digits_none; [exact Hds|exact Hc|now apply other_blocked|].
    intros c' s' Hb. now apply go_blocked.
Qed.

(** On 'MB-3MB', '2-3MB' and '2GB-3GB'. *)
Lemma size_pattern_rejects_witness :
  Re.re_match true size_pattern "MB-3MB" = None /\
  Re.re_match true size_pattern "2-3MB" = None /\
  Re.re_match true size_pattern "2GB-3GB" = None.
Proof.
  destruct size_pattern_rejects as [Hstart Hunit].
  split; [apply (Hstart "MB-3MB"); split; [reflexivity | apply Nat.ltb_lt; reflexivity]|].
  split.
  - apply (Hunit "2" "-"%char "3MB"); [reflexivity|apply Nat.ltb_lt; reflexivity|reflexivity|].
    cbn. intros [H|[H|[H|[H|[H|[]]]]]]; discriminate H.
  - apply (Hunit "2" "G"%char "B-3GB"); [reflexivity|apply Nat.ltb_lt; reflexivity|reflexivity|].
    cbn. intros [H|[H|[H|[H|[H|[]]]]]]; discriminate H.
Defined.
